(** * Event registration portal: the two flat-file stores

    A shallow embedding of [models/event.js] and [models/user.js]: the
    in-memory collections, their JSON backing files, and the operations the
    HTTP routes call.  JavaScript built-ins the stores rely on ([parseInt],
    [parseFloat], [String.prototype.toLowerCase], [includes], [Date],
    [Array.prototype.sort], [JSON]) are modelled in [Module JS]; every store
    method is a computation in a small state-and-exception monad.  The
    token middleware ([middleware/auth.js]), the account routes
    ([routes/auth.js]) and the routes of [routes/events.js] that hand the
    stores typed values follow the stores. *)

From Stdlib Require Import ZArith QArith Ascii String List Lia.
From stdpp Require Import base numbers list strings sorting gmap.

Set Warnings "-register-all".

(** ** JavaScript values and built-ins *)

Module JS.

Local Open Scope Z_scope.

(** What a numeric property of a record can hold: a number, one of the
    non-finite numbers, or [null] (which is what [JSON.stringify] writes for a
    non-finite number, and what [JSON.parse] then reads back). *)
Inductive jsval (A : Type) : Type :=
  | Num (x : A)
  | NaN
  | Infinity (negative : bool)
  | Null.
Arguments Num {A} x.
Arguments NaN {A}.
Arguments Infinity {A} negative.
Arguments Null {A}.

(** [n >= v] for an integer [n]: relational comparison after [ToNumber];
    [ToNumber(null)] is [0], and every comparison with [NaN] is false. *)
Definition ge_val (n : Z) (v : jsval Z) : bool :=
  match v with
  | Num c => c <=? n
  | NaN => false
  | Infinity negative => negative
  | Null => 0 <=? n
  end.

(** *** Strings.  A string is a sequence of characters; the model is ASCII. *)

Definition code (c : ascii) : Z := Z.of_N (N_of_ascii c).
Definition char (n : Z) : ascii := ascii_of_N (Z.to_N n).

Definition lower_char (c : ascii) : ascii :=
  if (65 <=? code c) && (code c <=? 90) then char (code c + 32) else c.

(** [s.toLowerCase()] *)
Fixpoint toLowerCase (s : string) : string :=
  match s with
  | EmptyString => EmptyString
  | String c s' => String (lower_char c) (toLowerCase s')
  end.

(** [s.startsWith(t)] *)
Fixpoint startsWith (s t : string) {struct t} : bool :=
  match t, s with
  | EmptyString, _ => true
  | String _ _, EmptyString => false
  | String b t', String a s' => if Ascii.eqb a b then startsWith s' t' else false
  end.

(** [s.includes(t)]: [t] occurs in [s] at some position. *)
Fixpoint includes (s t : string) : bool :=
  startsWith s t ||
  match s with
  | EmptyString => false
  | String _ s' => includes s' t
  end.

(** [StrWhiteSpaceChar] within ASCII: TAB, LF, VT, FF, CR, SP. *)
Definition is_space (c : ascii) : bool :=
  let n := code c in ((9 <=? n) && (n <=? 13)) || (n =? 32).

Fixpoint trimStart (s : string) : string :=
  match s with
  | String c s' => if is_space c then trimStart s' else s
  | EmptyString => EmptyString
  end.

(** Value of a character as a digit in the given radix. *)
Definition digit (radix : Z) (c : ascii) : option Z :=
  let n := code c in
  let d := if (48 <=? n) && (n <=? 57) then n - 48
           else if (97 <=? n) && (n <=? 122) then n - 87
           else if (65 <=? n) && (n <=? 90) then n - 55
           else radix in
  if d <? radix then Some d else None.

(** Longest prefix of digits, read left to right: the value so far, whether a
    digit was seen, and the rest of the string. *)
Fixpoint digits (radix : Z) (s : string) (acc : Z) (seen : bool)
  : Z * bool * string :=
  match s with
  | String c s' =>
      match digit radix c with
      | Some d => digits radix s' (acc * radix + d) true
      | None => (acc, seen, s)
      end
  | EmptyString => (acc, seen, s)
  end.

(** An optional sign: [true] when the sign is [-]. *)
Definition sign (s : string) : bool * string :=
  match s with
  | String "-" s' => (true, s')
  | String "+" s' => (false, s')
  | _ => (false, s)
  end.

(** [parseInt(s)] with no radix argument: leading white space, a sign, an
    optional [0x] prefix, then the longest run of digits; [NaN] when there is
    no digit.  The exact integer is returned. *)
Definition parseInt (s : string) : jsval Z :=
  let '(neg, s1) := sign (trimStart s) in
  let '(radix, s2) :=
    match s1 with
    | String "0" (String "x" r) | String "0" (String "X" r) => (16, r)
    | _ => (10, s1)
    end in
  let '(v, seen, _) := digits radix s2 0 false in
  if seen then Num (if neg then - v else v) else NaN.

(** [parseFloat(s)]: leading white space, a sign, then [Infinity] or a decimal
    literal (digits, an optional fraction, an optional exponent that is used
    only when it has a digit); [NaN] when no literal starts the string.  The
    decimal value is kept exactly; a magnitude that rounds past the largest
    double is [Infinity]. *)
Definition pow10 (mant e : Z) : Q :=
  if 0 <=? e then Qmake (mant * 10 ^ e) 1 else Qmake mant (Z.to_pos (10 ^ (- e))).

Definition overflow : Q := Qmake (2 ^ 1024 - 2 ^ 970) 1.

Definition parseFloat (s : string) : jsval Q :=
  let '(neg, s1) := sign (trimStart s) in
  if startsWith s1 "Infinity" then Infinity neg else
  let '(ip, seen_i, s2) := digits 10 s1 0 false in
  let '(mant, seen_f, k, s3) :=
    match s2 with
    | String "." r =>
        let '(m, seen, r') := digits 10 r ip false in
        (m, seen, Z.of_nat (String.length r) - Z.of_nat (String.length r'), r')
    | _ => (ip, false, 0, s2)
    end in
  if negb (seen_i || seen_f) then NaN else
  let e :=
    match s3 with
    | String "e" r | String "E" r =>
        let '(eneg, r') := sign r in
        let '(v, seen, _) := digits 10 r' 0 false in
        if seen then (if eneg then - v else v) else 0
    | _ => 0
    end in
  let q := pow10 mant (e - k) in
  if Qle_bool overflow q then Infinity neg
  else Num (if neg then Qopp q else q).

(** *** Dates.  A time value is a number of milliseconds since the epoch, or
    [NaN] for an invalid date. *)

(** Exactly [n] decimal digits. *)
Fixpoint fixed (n : nat) (s : string) (acc : Z) : option (Z * string) :=
  match n with
  | O => Some (acc, s)
  | S n' =>
      match s with
      | String c s' =>
          match digit 10 c with
          | Some d => fixed n' s' (acc * 10 + d)
          | None => None
          end
      | EmptyString => None
      end
  end.

Definition expect (c : ascii) (s : string) : option string :=
  match s with
  | String a s' => if Ascii.eqb a c then Some s' else None
  | EmptyString => None
  end.

(** Day number of a civil date (proleptic Gregorian calendar, day 0 is
    1970-01-01); a day past the end of the month runs into the next one. *)
Definition MakeDay (y m d : Z) : Z :=
  let y' := if m <=? 2 then y - 1 else y in
  let era := y' / 400 in
  let yoe := y' - era * 400 in
  let doy := (153 * (if 2 <? m then m - 3 else m + 9) + 2) / 5 + d - 1 in
  let doe := yoe * 365 + yoe / 4 - yoe / 100 + doy in
  era * 146097 + doe - 719468.

Definition msPerDay : Z := 86400000.

Definition MakeDate (day h mi s ms : Z) : Z :=
  day * msPerDay + ((h * 60 + mi) * 60 + s) * 1000 + ms.

(** The time part after [T]: [HH:mm], [HH:mm:ss] or [HH:mm:ss.sss]. *)
Definition time_of_day (s : string) : option (Z * Z * Z * Z * string) :=
  '(h, s) ← fixed 2 s 0;
  s ← expect ":" s;
  '(mi, s) ← fixed 2 s 0;
  match expect ":" s with
  | None => Some (h, mi, 0, 0, s)
  | Some s =>
      '(sec, s) ← fixed 2 s 0;
      match expect "." s with
      | None => Some (h, mi, sec, 0, s)
      | Some s => '(ms, s) ← fixed 3 s 0; Some (h, mi, sec, ms, s)
      end
  end.

(** The offset that ends a date-time string: nothing (local time), [Z], or
    [+HH:mm] / [-HH:mm]; [None] is a malformed ending. *)
Inductive zone := Local | Offset (ms : Z).

Definition zone_of (s : string) : option zone :=
  match s with
  | EmptyString => Some Local
  | String "Z" EmptyString => Some (Offset 0)
  | String c s =>
      if Ascii.eqb c "+" || Ascii.eqb c "-" then
        '(h, s) ← fixed 2 s 0;
        s ← expect ":" s;
        '(mi, s) ← fixed 2 s 0;
        match s with
        | EmptyString =>
            if (h <=? 23) && (mi <=? 59) then
              Some (Offset ((if Ascii.eqb c "-" then -1 else 1) * (h * 60 + mi) * 60000))
            else None
        | _ => None
        end
      else None
  end.

Section Date.

(** The host's time zone: the offset, in milliseconds, of local time from UTC
    at a given local time value. *)
Variable LocalTZA : Z → Z.

(** [new Date(s).getTime()] for a string in the date-time format
    [YYYY-MM-DD'T'HH:mm(:ss(.sss))] with an optional offset; without one the
    string is local time.  Field ranges are those the engine accepts (day
    1..31 in every month, 24:00:00 as the end of the day).  Any other string
    is an invalid date here. *)
Definition Date_parse (s : string) : jsval Z :=
  let r : option Z :=
    '(y, s) ← fixed 4 s 0;
    s ← expect "-" s;
    '(m, s) ← fixed 2 s 0;
    s ← expect "-" s;
    '(d, s) ← fixed 2 s 0;
    s ← expect "T" s;
    '(h, mi, sec, ms, s) ← time_of_day s;
    z ← zone_of s;
    if (1 <=? m) && (m <=? 12) && (1 <=? d) && (d <=? 31) &&
       (((h <=? 23) && (mi <=? 59) && (sec <=? 59)) ||
        ((h =? 24) && (mi =? 0) && (sec =? 0) && (ms =? 0)))
    then
      let t := MakeDate (MakeDay y m d) h mi sec ms in
      Some (match z with Local => t - LocalTZA t | Offset o => t - o end)
    else None in
  match r with Some t => Num t | None => NaN end.

End Date.

(** [a - b] on time values. *)
Definition minus (a b : jsval Z) : jsval Z :=
  match a, b with
  | Num x, Num y => Num (x - y)
  | _, _ => NaN
  end.

(** [a > b] on time values. *)
Definition gt (a b : jsval Z) : bool :=
  match a, b with
  | Num x, Num y => y <? x
  | _, _ => false
  end.

(** Decimal digits of a natural number, at least [width] of them. *)
Fixpoint pad (width : nat) (n : Z) (acc : string) : string :=
  match width with
  | O => acc
  | S w => pad w (n / 10) (String (char (48 + n mod 10)) acc)
  end.

(** [new Date(t).toISOString()] for a time value [t]:
    [YYYY-MM-DDTHH:mm:ss.sssZ], the year with six digits and a sign outside
    0..9999. *)
Definition toISOString (t : Z) : string :=
  let z := t / msPerDay + 719468 in
  let era := z / 146097 in
  let doe := z - era * 146097 in
  let yoe := (doe - doe / 1460 + doe / 36524 - doe / 146096) / 365 in
  let doy := doe - (365 * yoe + yoe / 4 - yoe / 100) in
  let mp := (5 * doy + 2) / 153 in
  let d := doy - (153 * mp + 2) / 5 + 1 in
  let m := if mp <? 10 then mp + 3 else mp - 9 in
  let y := yoe + era * 400 + (if m <=? 2 then 1 else 0) in
  let r := t mod msPerDay in
  let year :=
    if (0 <=? y) && (y <=? 9999) then pad 4 y EmptyString
    else String (if y <? 0 then "-"%char else "+"%char) (pad 6 (Z.abs y) EmptyString) in
  year +:+ "-" +:+ pad 2 m EmptyString +:+ "-" +:+ pad 2 d EmptyString +:+ "T"
    +:+ pad 2 (r / 3600000) EmptyString +:+ ":"
    +:+ pad 2 (r / 60000 mod 60) EmptyString +:+ ":"
    +:+ pad 2 (r / 1000 mod 60) EmptyString +:+ "."
    +:+ pad 3 (r mod 1000) EmptyString +:+ "Z".

(** *** [Array.prototype.sort] with a comparator.

    The sort is stable, and a comparator result that is [NaN] counts as [0].
    The model is the insertion pass: each element in turn moves left past the
    elements it compares strictly below.  For a consistent comparator this is
    the one stable sorted order the language prescribes; for an inconsistent
    one the language leaves the order to the engine. *)
Section Sort.

Context {A : Type} (comparefn : A → A → jsval Z).

Definition below (x y : A) : bool :=
  match comparefn x y with
  | Num v => v <? 0
  | Infinity negative => negative
  | NaN | Null => false
  end.

(** [before] holds the elements already placed, last one first. *)
Fixpoint sink (x : A) (before : list A) : list A :=
  match before with
  | y :: before' => if below x y then y :: sink x before' else x :: before
  | [] => [x]
  end.

Definition sort (l : list A) : list A :=
  rev (fold_left (λ before x, sink x before) l []).

End Sort.

(** [array.includes(x)] on an array of numbers. *)
Definition Array_includes (l : list Z) (x : Z) : bool := existsb (Z.eqb x) l.

(** *** JSON documents.  [JSON.stringify] and [JSON.parse] are taken at the
    level of the document they write and read, not of its text. *)
Inductive json : Type :=
  | JNull
  | JNum (q : Q)
  | JStr (s : string)
  | JArr (items : list json)
  | JObj (members : list (string * json)).

(** Property lookup in a parsed object. *)
Fixpoint member (key : string) (members : list (string * json)) : option json :=
  match members with
  | (k, v) :: rest => if String.eqb k key then Some v else member key rest
  | [] => None
  end.

(** How a numeric property is written: a finite number as itself, anything
    else as [null]. *)
Definition num_to_json {A} (inj : A → Q) (v : jsval A) : json :=
  match v with
  | Num x => JNum (inj x)
  | NaN | Infinity _ | Null => JNull
  end.

Definition int_of_json (j : json) : option Z :=
  match j with
  | JNum q => if (Qden q =? 1)%positive then Some (Qnum q) else None
  | _ => None
  end.

Definition string_of_json (j : json) : option string :=
  match j with JStr s => Some s | _ => None end.

Definition num_of_json {A} (prj : Q → option A) (j : json) : option (jsval A) :=
  match j with
  | JNum q => Num <$> prj q
  | JNull => Some Null
  | _ => None
  end.

Definition ints_of_json (j : json) : option (list Z) :=
  match j with
  | JArr items => mapM int_of_json items
  | _ => None
  end.

(** [a <= b] on time values. *)
Definition lte (a b : jsval Z) : bool :=
  match a, b with
  | Num x, Num y => x <=? y
  | _, _ => false
  end.

(** [array.slice(start, stop)]: a negative index counts from the end, and
    both are clamped to the array. *)
Definition slice {A : Type} (start stop : Z) (l : list A) : list A :=
  let len := Z.of_nat (length l) in
  let k := if start <? 0 then Z.max (len + start) 0 else Z.min start len in
  let final := if stop <? 0 then Z.max (len + stop) 0 else Z.min stop len in
  take (Z.to_nat (Z.max (final - k) 0)) (drop (Z.to_nat k) l).

(** [s.split(c)] for a separator of one character. *)
Fixpoint split (c : ascii) (s : string) : list string :=
  match s with
  | EmptyString => [EmptyString]
  | String a s' =>
      if Ascii.eqb a c then EmptyString :: split c s'
      else match split c s' with
           | w :: ws => String a w :: ws
           | [] => [String a EmptyString]
           end
  end.

(** *** Plain objects used as dictionaries.

    A property of [{}] holds a number or a string.  A key that is not an own
    property is looked up in [Object.prototype]; [inherited key] is the text
    such an inherited value turns into under [+] (the source text of the
    built-in function, or [[object Object]] for [__proto__]). *)
Inductive property : Type :=
  | Count (n : Z)
  | Text (s : string).

Definition inherited (key : string) : option string :=
  (if String.eqb key "constructor" then Some "function Object() { [native code] }"
   else if String.eqb key "__proto__" then Some "[object Object]"
   else if existsb (String.eqb key)
             ["__defineGetter__"; "__defineSetter__"; "hasOwnProperty";
              "__lookupGetter__"; "__lookupSetter__"; "isPrototypeOf";
              "propertyIsEnumerable"; "toString"; "valueOf"; "toLocaleString"]
   then Some ("function " +:+ key +:+ "() { [native code] }")
   else None)%string.

(** [object[key]]: [None] is [undefined]. *)
Definition get_property (object : gmap string property) (key : string)
  : option property :=
  match object !! key with
  | Some v => Some v
  | None => Text <$> inherited key
  end.

(** [object[key] = v]: the setter of [__proto__] ignores a value that is
    not an object. *)
Definition set_property (object : gmap string property) (key : string)
    (v : property) : gmap string property :=
  if String.eqb key "__proto__" then object else <[key:=v]> object.

(** [(v || 0) + 1] *)
Definition or_zero_plus_one (v : option property) : property :=
  match v with
  | Some (Count n) => Count (n + 1)
  | Some (Text EmptyString) | None => Count 1
  | Some (Text s) => Text (s +:+ "1")
  end.

End JS.

Import JS.

(** ** Effects: exceptions over explicit state *)

(** What a method can throw.  [Error message] is [new Error(message)];
    [SystemError code] is a failed file-system call with its [code];
    [SyntaxError] is [JSON.parse] rejecting its input; [TypeError] is a
    property access on [undefined]. *)
Inductive exn : Type :=
  | Error (message : string)
  | SystemError (code : string)
  | SyntaxError
  | TypeError.

Inductive result (A : Type) : Type :=
  | Ok (value : A)
  | Throw (e : exn).
Arguments Ok {A} value.
Arguments Throw {A} e.

(** An [async] method over the instance state [S]: it ends in a new state
    and either returns a value or throws. *)
Definition M (S A : Type) : Type := S → S * result A.

Definition ret {S A} (a : A) : M S A := λ s, (s, Ok a).

Definition bind {S A B} (c : M S A) (k : A → M S B) : M S B :=
  λ s, match c s with
       | (s', Ok a) => k a s'
       | (s', Throw e) => (s', Throw e)
       end.

Definition throw {S A} (e : exn) : M S A := λ s, (s, Throw e).

(** [try { c } catch (error) { handler(error) }] *)
Definition try_catch {S A} (c : M S A) (handler : exn → M S A) : M S A :=
  λ s, match c s with
       | (s', Ok a) => (s', Ok a)
       | (s', Throw e) => handler e s'
       end.

(** [try { c } catch (error) { console.error(..., error); throw error; }],
    the frame around the body of most methods.  The console is not part of
    the state. *)
Definition logged {S A} (c : M S A) : M S A :=
  try_catch c (λ error, throw error).

Definition get {S} : M S S := λ s, (s, Ok s).
Definition modify {S} (f : S → S) : M S unit := λ s, (f s, Ok tt).

Notation "x <- c ;; k" := (bind c (λ x, k))
  (at level 100, c at next level, right associativity).
Notation "c ;; k" := (bind c (λ _, k))
  (at level 100, right associativity).

(** The failure taxonomy of the stores.  The methods throw plain [Error]
    objects; the kind of a failure is read off its message. *)
Inductive kind : Type := NotFound | Conflict | IOFailure | Other.

Definition classify (e : exn) : kind :=
  match e with
  | Error "Event not found" | Error "User not found" => NotFound
  | Error "Event is full"
  | Error "User already registered for this event"
  | Error "User not registered for this event" => Conflict
  | SystemError _ => IOFailure
  | _ => Other
  end.

(** [Math.max(x, ...xs)] *)
Definition Math_max (x : Z) (xs : list Z) : Z := fold_left Z.max xs x.

(** ** The event store ([class Event]) *)

Module Event.

Local Open Scope Z_scope.

(** An event object of [this.events]. *)
Record record : Type := {
  id : Z;
  title : string;
  category : string;
  date : string;
  time : string;
  location : string;
  description : string;
  capacity : jsval Z;
  price : jsval Q;
  organizerId : Z;
  organizerName : string;
  registrations : Z;
  registeredUsers : list Z;
  createdAt : string;
  updatedAt : string
}.

(** The argument of [create].  [capacity] and [price] are the text the caller
    sent (a number stands for its decimal text, which is what [parseInt] and
    [parseFloat] read); an absent [registrations] or [registeredUsers] is
    [None]. *)
Module Data.
Record t : Type := {
  title : string;
  category : string;
  date : string;
  time : string;
  location : string;
  description : string;
  capacity : string;
  price : string;
  organizerId : Z;
  organizerName : string;
  registrations : option Z;
  registeredUsers : option (list Z)
}.
End Data.

(** The argument of [update]: the properties present in [updateData]. *)
Module Patch.
Record t : Type := {
  id : option Z;
  title : option string;
  category : option string;
  date : option string;
  time : option string;
  location : option string;
  description : option string;
  capacity : option (jsval Z);
  price : option (jsval Q);
  organizerId : option Z;
  organizerName : option string;
  registrations : option Z;
  registeredUsers : option (list Z);
  createdAt : option string
}.

Definition empty : t :=
  {| id := None; title := None; category := None; date := None; time := None;
     location := None; description := None; capacity := None; price := None;
     organizerId := None; organizerName := None; registrations := None;
     registeredUsers := None; createdAt := None |}.
End Patch.

(** The instance: [this.events], [this.nextId], and the content of
    [this.dataFile] on disk ([None] when the file does not exist). *)
Record state : Type := {
  events : list record;
  nextId : Z;
  dataFile : option json
}.

Definition set_events (l : list record) (s : state) : state :=
  {| events := l; nextId := nextId s; dataFile := dataFile s |}.

(** [JSON.stringify] of one event, and the reading of one parsed object. *)
Definition to_json (e : record) : json :=
  JObj [("id", JNum (inject_Z (id e)));
        ("title", JStr (title e));
        ("category", JStr (category e));
        ("date", JStr (date e));
        ("time", JStr (time e));
        ("location", JStr (location e));
        ("description", JStr (description e));
        ("capacity", num_to_json inject_Z (capacity e));
        ("price", num_to_json (λ q, q) (price e));
        ("organizerId", JNum (inject_Z (organizerId e)));
        ("organizerName", JStr (organizerName e));
        ("registrations", JNum (inject_Z (registrations e)));
        ("registeredUsers", JArr (JNum ∘ inject_Z <$> registeredUsers e));
        ("createdAt", JStr (createdAt e));
        ("updatedAt", JStr (updatedAt e))]%string.

Definition of_json (j : json) : option record :=
  match j with
  | JObj ms =>
      id ← member "id" ms ≫= int_of_json;
      title ← member "title" ms ≫= string_of_json;
      category ← member "category" ms ≫= string_of_json;
      date ← member "date" ms ≫= string_of_json;
      time ← member "time" ms ≫= string_of_json;
      location ← member "location" ms ≫= string_of_json;
      description ← member "description" ms ≫= string_of_json;
      capacity ← member "capacity" ms ≫= num_of_json (λ q, int_of_json (JNum q));
      price ← member "price" ms ≫= num_of_json Some;
      organizerId ← member "organizerId" ms ≫= int_of_json;
      organizerName ← member "organizerName" ms ≫= string_of_json;
      registrations ← member "registrations" ms ≫= int_of_json;
      registeredUsers ← member "registeredUsers" ms ≫= ints_of_json;
      createdAt ← member "createdAt" ms ≫= string_of_json;
      updatedAt ← member "updatedAt" ms ≫= string_of_json;
      Some {| id := id; title := title; category := category; date := date;
              time := time; location := location; description := description;
              capacity := capacity; price := price; organizerId := organizerId;
              organizerName := organizerName; registrations := registrations;
              registeredUsers := registeredUsers; createdAt := createdAt;
              updatedAt := updatedAt |}
  | _ => None
  end.

(** [JSON.stringify(this.events, null, 2)] and [JSON.parse(data)].  A document
    that is not an array of event objects is outside the typed model and is
    treated like text that does not parse. *)
Definition stringify (l : list record) : json := JArr (to_json <$> l).

Definition parse (doc : json) : option (list record) :=
  match doc with
  | JArr items => mapM of_json items
  | _ => None
  end.


(** In-place writes to the instance. *)
Definition set_nextId (n : Z) (s : state) : state :=
  {| events := events s; nextId := n; dataFile := dataFile s |}.

Definition set_dataFile (doc : json) (s : state) : state :=
  {| events := events s; nextId := nextId s; dataFile := Some doc |}.

(** In-place writes to one event object. *)
Definition set_registeredUsers (l : list Z) (e : record) : record :=
  {| id := id e; title := title e; category := category e; date := date e;
     time := time e; location := location e; description := description e;
     capacity := capacity e; price := price e; organizerId := organizerId e;
     organizerName := organizerName e; registrations := registrations e;
     registeredUsers := l; createdAt := createdAt e; updatedAt := updatedAt e |}.

Definition set_registrations (n : Z) (e : record) : record :=
  {| id := id e; title := title e; category := category e; date := date e;
     time := time e; location := location e; description := description e;
     capacity := capacity e; price := price e; organizerId := organizerId e;
     organizerName := organizerName e; registrations := n;
     registeredUsers := registeredUsers e; createdAt := createdAt e;
     updatedAt := updatedAt e |}.

(** [{ ...event, ...updateData, updatedAt: now }] *)
Definition merge (e : record) (updateData : Patch.t) (now : string) : record :=
  {| id := default (id e) (Patch.id updateData);
     title := default (title e) (Patch.title updateData);
     category := default (category e) (Patch.category updateData);
     date := default (date e) (Patch.date updateData);
     time := default (time e) (Patch.time updateData);
     location := default (location e) (Patch.location updateData);
     description := default (description e) (Patch.description updateData);
     capacity := default (capacity e) (Patch.capacity updateData);
     price := default (price e) (Patch.price updateData);
     organizerId := default (organizerId e) (Patch.organizerId updateData);
     organizerName := default (organizerName e) (Patch.organizerName updateData);
     registrations := default (registrations e) (Patch.registrations updateData);
     registeredUsers := default (registeredUsers e) (Patch.registeredUsers updateData);
     createdAt := default (createdAt e) (Patch.createdAt updateData);
     updatedAt := now |}.

(** An event object is held by reference: a reference is the slot of
    [this.events] the object sits in.  [deref] reads the object, [assign]
    writes one of its properties in place.  Each event object has a
    [registeredUsers] array of its own (no two slots share one), so a write
    through one reference is seen in one slot. *)
Definition deref (ref : nat) : M state record :=
  s <- get;;
  match events s !! ref with
  | Some e => ret e
  | None => throw TypeError
  end.

Definition assign (ref : nat) (f : record → record) : M state unit :=
  e <- deref ref;;
  modify (λ s, set_events (<[ref := f e]> (events s)) s).

(** [new Event()], given what is on disk. *)
Definition constructor (file : option json) : state :=
  {| events := []; nextId := 1; dataFile := file |}.

(** [loadEvents()]; [readable] tells whether [fs.readFile] can read an
    existing file. *)
Definition loadEvents (readable : bool) : M state unit :=
  try_catch
    (s <- get;;
     match dataFile s with
     | None => throw (SystemError "ENOENT")
     | Some data =>
         if negb readable then throw (SystemError "EACCES") else
         match parse data with
         | None => throw SyntaxError
         | Some l =>
             modify (set_events l);;
             match l with
             | e :: rest => modify (set_nextId (Math_max (id e) (id <$> rest) + 1))
             | [] => ret tt
             end
         end
     end)
    (λ error,
       match error with
       | SystemError "ENOENT" => modify (set_events [])
       | _ => throw error
       end).

(** [init()] *)
Definition init (readable : bool) : M state unit :=
  try_catch (loadEvents readable) (λ _, modify (set_events [])).

(** [saveEvents()]; [io] tells whether [mkdir] and [writeFile] succeed. *)
Definition saveEvents (io : bool) : M state unit :=
  logged (
    if io then modify (λ s, set_dataFile (stringify (events s)) s)
    else throw (SystemError "EIO")).

(** [create(eventData)]; [clock n] is the [n]-th reading of [new Date()]
    during the call. *)
Definition create (clock : nat → Z) (io : bool) (eventData : Data.t)
  : M state record :=
  logged (
    s <- get;;
    modify (set_nextId (nextId s + 1));;
    let newEvent :=
      {| id := nextId s;
         title := Data.title eventData;
         category := Data.category eventData;
         date := Data.date eventData;
         time := Data.time eventData;
         location := Data.location eventData;
         description := Data.description eventData;
         capacity := parseInt (Data.capacity eventData);
         price := parseFloat (Data.price eventData);
         organizerId := Data.organizerId eventData;
         organizerName := Data.organizerName eventData;
         registrations := default 0 (Data.registrations eventData);
         registeredUsers := default [] (Data.registeredUsers eventData);
         createdAt := toISOString (clock 0%nat);
         updatedAt := toISOString (clock 1%nat) |} in
    modify (λ s, set_events (events s ++ [newEvent]) s);;
    saveEvents io;;
    ret newEvent).

(** [this.events.findIndex(event => event.id === parseInt(id))]; [parseInt]
    of an integer is that integer.  [None] is the [-1] of JavaScript. *)
Definition findIndex (i : Z) (l : list record) : option nat :=
  fst <$> list_find (λ event, id event = i) l.

(** [findById(id)]: a reference to the first event with that id, or
    [undefined]. *)
Definition findById (i : Z) : M state (option nat) :=
  logged (
    s <- get;; ret (findIndex i (events s))).

(** [search(query)] *)
Definition search (query : string) : M state (list record) :=
  logged (
    let searchTerm := toLowerCase query in
    s <- get;;
    ret (List.filter (λ event,
           includes (toLowerCase (title event)) searchTerm ||
           includes (toLowerCase (description event)) searchTerm ||
           includes (toLowerCase (location event)) searchTerm ||
           includes (toLowerCase (category event)) searchTerm) (events s))).

(** [update(id, updateData)] *)
Definition update (clock : nat → Z) (io : bool) (i : Z) (updateData : Patch.t)
  : M state record :=
  logged (
    s <- get;;
    match findIndex i (events s) with
    | None => throw (Error "Event not found")
    | Some eventIndex =>
        old <- deref eventIndex;;
        modify (λ s, set_events
          (<[eventIndex := merge old updateData (toISOString (clock 0%nat))]> (events s)) s);;
        saveEvents io;;
        deref eventIndex
    end).

(** [delete(id)]; [splice(eventIndex, 1)] removes the slot. *)
Definition delete (io : bool) (i : Z) : M state bool :=
  logged (
    s <- get;;
    match findIndex i (events s) with
    | None => throw (Error "Event not found")
    | Some eventIndex =>
        modify (λ s, set_events (base.delete eventIndex (events s)) s);;
        saveEvents io;;
        ret true
    end).

(** [registerUser(eventId, userId)] *)
Definition registerUser (clock : nat → Z) (io : bool) (eventId userId : Z)
  : M state bool :=
  logged (
    found <- findById eventId;;
    match found with
    | None => throw (Error "Event not found")
    | Some event =>
        e <- deref event;;
        if ge_val (registrations e) (capacity e) then throw (Error "Event is full")
        else if Array_includes (registeredUsers e) userId then
          throw (Error "User already registered for this event")
        else
          assign event (λ e, set_registeredUsers (registeredUsers e ++ [userId]) e);;
          assign event (λ e, set_registrations (registrations e + 1) e);;
          e <- deref event;;
          update clock io eventId
            {| Patch.id := None; Patch.title := None; Patch.category := None;
               Patch.date := None; Patch.time := None; Patch.location := None;
               Patch.description := None; Patch.capacity := None;
               Patch.price := None; Patch.organizerId := None;
               Patch.organizerName := None;
               Patch.registrations := Some (registrations e);
               Patch.registeredUsers := Some (registeredUsers e);
               Patch.createdAt := None |};;
          ret true
    end).

(** [unregisterUser(eventId, userId)] *)
Definition unregisterUser (clock : nat → Z) (io : bool) (eventId userId : Z)
  : M state bool :=
  logged (
    found <- findById eventId;;
    match found with
    | None => throw (Error "Event not found")
    | Some event =>
        e <- deref event;;
        if negb (Array_includes (registeredUsers e) userId) then
          throw (Error "User not registered for this event")
        else
          assign event (λ e, set_registeredUsers
            (List.filter (λ id, negb (id =? userId)) (registeredUsers e)) e);;
          assign event (λ e, set_registrations (Z.max 0 (registrations e - 1)) e);;
          e <- deref event;;
          update clock io eventId
            {| Patch.id := None; Patch.title := None; Patch.category := None;
               Patch.date := None; Patch.time := None; Patch.location := None;
               Patch.description := None; Patch.capacity := None;
               Patch.price := None; Patch.organizerId := None;
               Patch.organizerName := None;
               Patch.registrations := Some (registrations e);
               Patch.registeredUsers := Some (registeredUsers e);
               Patch.createdAt := None |};;
          ret true
    end).

(** What [findAll] returns for one event: a copy with [isUpcoming] added. *)
Record view : Type := { event : record; isUpcoming : bool }.

Section Clock.

Variable LocalTZA : Z → Z.

(** [new Date(event.date + 'T' + event.time)] as a time value. *)
Definition start (e : record) : jsval Z :=
  Date_parse LocalTZA (date e +:+ "T" +:+ time e).

(** [findAll()]: [sort] orders [this.events] itself; [clock n] is the reading
    of [new Date()] taken for the [n]-th event of the result. *)
Definition findAll (clock : nat → Z) : M state (list view) :=
  logged (
    s <- get;;
    let sorted := sort (λ a b, minus (start a) (start b)) (events s) in
    modify (set_events sorted);;
    ret (imap (λ n e, {| event := e; isUpcoming := gt (start e) (Num (clock n)) |})
              sorted)).

(** [findByCategory(category)] *)
Definition findByCategory (categoryName : string) : M state (list record) :=
  logged (
    s <- get;;
    ret (List.filter (λ event,
           String.eqb (toLowerCase (category event)) (toLowerCase categoryName))
           (events s))).

(** [getUpcomingEvents(limit)], [limit] being 10 when absent; [now] is read
    once.  [filter] builds a new array, which is the one [sort] orders. *)
Definition getUpcomingEvents (clock : nat → Z) (limit : option Z)
  : M state (list record) :=
  logged (
    let now := Num (clock 0%nat) in
    s <- get;;
    let upcomingEvents :=
      slice 0 (default 10 limit)
        (sort (λ a b, minus (start a) (start b))
           (List.filter (λ event, gt (start event) now) (events s))) in
    ret upcomingEvents).

(** [getEventsByOrganizer(organizerId)] *)
Definition getEventsByOrganizer (organizer : Z) : M state (list record) :=
  logged (
    s <- get;;
    ret (List.filter (λ event, organizerId event =? organizer) (events s))).

(** What [getEventStats] returns. *)
Record stats : Type := {
  totalEvents : Z;
  upcomingEvents : Z;
  pastEvents : Z;
  totalRegistrations : Z;
  categoryStats : gmap string property
}.

(** [getEventStats()]; [clock n] is the reading of [new Date()] taken for
    the [n]-th event. *)
Definition getEventStats (clock : nat → Z) : M state stats :=
  logged (
    s <- get;;
    let totalEvents := Z.of_nat (length (events s)) in
    let upcomingEvents :=
      Z.of_nat (length (List.filter (λ b : bool, b)
        (imap (λ n event, gt (start event) (Num (clock n))) (events s)))) in
    let pastEvents := totalEvents - upcomingEvents in
    let totalRegistrations :=
      fold_left (λ sum event, sum + registrations event) (events s) 0 in
    let categoryStats :=
      fold_left (λ categoryStats event,
                   set_property categoryStats (category event)
                     (or_zero_plus_one (get_property categoryStats (category event))))
                (events s) ∅ in
    ret {| totalEvents := totalEvents; upcomingEvents := upcomingEvents;
           pastEvents := pastEvents; totalRegistrations := totalRegistrations;
           categoryStats := categoryStats |}).

(** [getPopularEvents(limit)], [limit] being 5 when absent; [sort] orders
    [this.events] itself. *)
Definition getPopularEvents (limit : option Z) : M state (list record) :=
  logged (
    s <- get;;
    let sorted :=
      sort (λ a b, Num (registrations b - registrations a)) (events s) in
    modify (set_events sorted);;
    ret (slice 0 (default 5 limit) sorted)).

(** [cleanupPastEvents()] *)
Definition cleanupPastEvents (clock : nat → Z) : M state Z :=
  logged (
    let now := Num (clock 0%nat) in
    s <- get;;
    let pastEvents :=
      List.filter (λ event, lte (start event) now) (events s) in
    ret (Z.of_nat (length pastEvents))).

End Clock.

End Event.

(** ** The user store ([class User]) *)

Module User.

Local Open Scope Z_scope.

(** A user object of [this.users]; [password] is the stored hash. *)
Record record : Type := {
  id : Z;
  name : string;
  email : string;
  password : string;
  registeredEvents : list Z;
  createdAt : string;
  updatedAt : string
}.

(** The argument of [create]. *)
Module Data.
Record t : Type := { name : string; email : string; password : string }.
End Data.

(** The argument of [update]: the properties present in [updateData]. *)
Module Patch.
Record t : Type := {
  id : option Z;
  name : option string;
  email : option string;
  password : option string;
  registeredEvents : option (list Z);
  createdAt : option string
}.
End Patch.

(** [const { password, ...userWithoutPassword } = user] *)
Record public : Type := {
  pub_id : Z;
  pub_name : string;
  pub_email : string;
  pub_registeredEvents : list Z;
  pub_createdAt : string;
  pub_updatedAt : string
}.

Definition withoutPassword (u : record) : public :=
  {| pub_id := id u; pub_name := name u; pub_email := email u;
     pub_registeredEvents := registeredEvents u;
     pub_createdAt := createdAt u; pub_updatedAt := updatedAt u |}.

(** The instance: [this.users], [this.nextId], and the content of
    [this.dataFile] on disk. *)
Record state : Type := {
  users : list record;
  nextId : Z;
  dataFile : option json
}.

Definition set_users (l : list record) (s : state) : state :=
  {| users := l; nextId := nextId s; dataFile := dataFile s |}.

Definition set_nextId (n : Z) (s : state) : state :=
  {| users := users s; nextId := n; dataFile := dataFile s |}.

Definition set_dataFile (doc : json) (s : state) : state :=
  {| users := users s; nextId := nextId s; dataFile := Some doc |}.

Definition set_registeredEvents (l : list Z) (u : record) : record :=
  {| id := id u; name := name u; email := email u; password := password u;
     registeredEvents := l; createdAt := createdAt u; updatedAt := updatedAt u |}.

(** [{ ...user, ...updateData, updatedAt: now }] *)
Definition merge (u : record) (updateData : Patch.t) (now : string) : record :=
  {| id := default (id u) (Patch.id updateData);
     name := default (name u) (Patch.name updateData);
     email := default (email u) (Patch.email updateData);
     password := default (password u) (Patch.password updateData);
     registeredEvents := default (registeredEvents u) (Patch.registeredEvents updateData);
     createdAt := default (createdAt u) (Patch.createdAt updateData);
     updatedAt := now |}.

Definition to_json (u : record) : json :=
  JObj [("id", JNum (inject_Z (id u)));
        ("name", JStr (name u));
        ("email", JStr (email u));
        ("password", JStr (password u));
        ("registeredEvents", JArr (JNum ∘ inject_Z <$> registeredEvents u));
        ("createdAt", JStr (createdAt u));
        ("updatedAt", JStr (updatedAt u))]%string.

Definition of_json (j : json) : option record :=
  match j with
  | JObj ms =>
      id ← member "id" ms ≫= int_of_json;
      name ← member "name" ms ≫= string_of_json;
      email ← member "email" ms ≫= string_of_json;
      password ← member "password" ms ≫= string_of_json;
      registeredEvents ← member "registeredEvents" ms ≫= ints_of_json;
      createdAt ← member "createdAt" ms ≫= string_of_json;
      updatedAt ← member "updatedAt" ms ≫= string_of_json;
      Some {| id := id; name := name; email := email; password := password;
              registeredEvents := registeredEvents; createdAt := createdAt;
              updatedAt := updatedAt |}
  | _ => None
  end.

Definition stringify (l : list record) : json := JArr (to_json <$> l).

Definition parse (doc : json) : option (list record) :=
  match doc with
  | JArr items => mapM of_json items
  | _ => None
  end.

(** A user object is held by reference, as an event object is. *)
Definition deref (ref : nat) : M state record :=
  s <- get;;
  match users s !! ref with
  | Some u => ret u
  | None => throw TypeError
  end.

Definition assign (ref : nat) (f : record → record) : M state unit :=
  u <- deref ref;;
  modify (λ s, set_users (<[ref := f u]> (users s)) s).

(** [new User()], given what is on disk. *)
Definition constructor (file : option json) : state :=
  {| users := []; nextId := 1; dataFile := file |}.

(** [loadUsers()] *)
Definition loadUsers (readable : bool) : M state unit :=
  try_catch
    (s <- get;;
     match dataFile s with
     | None => throw (SystemError "ENOENT")
     | Some data =>
         if negb readable then throw (SystemError "EACCES") else
         match parse data with
         | None => throw SyntaxError
         | Some l =>
             modify (set_users l);;
             match l with
             | u :: rest => modify (set_nextId (Math_max (id u) (id <$> rest) + 1))
             | [] => ret tt
             end
         end
     end)
    (λ error,
       match error with
       | SystemError "ENOENT" => modify (set_users [])
       | _ => throw error
       end).

(** [init()] *)
Definition init (readable : bool) : M state unit :=
  try_catch (loadUsers readable) (λ _, modify (set_users [])).

(** [saveUsers()] *)
Definition saveUsers (io : bool) : M state unit :=
  logged (
    if io then modify (λ s, set_dataFile (stringify (users s)) s)
    else throw (SystemError "EIO")).

(** [create(userData)] *)
Definition create (clock : nat → Z) (io : bool) (userData : Data.t)
  : M state public :=
  logged (
    s <- get;;
    modify (set_nextId (nextId s + 1));;
    let newUser :=
      {| id := nextId s;
         name := Data.name userData;
         email := toLowerCase (Data.email userData);
         password := Data.password userData;
         registeredEvents := [];
         createdAt := toISOString (clock 0%nat);
         updatedAt := toISOString (clock 1%nat) |} in
    modify (λ s, set_users (users s ++ [newUser]) s);;
    saveUsers io;;
    ret (withoutPassword newUser)).

(** [this.users.findIndex(user => user.id === parseInt(id))] *)
Definition findIndex (i : Z) (l : list record) : option nat :=
  fst <$> list_find (λ user, id user = i) l.

(** [findById(id)] *)
Definition findById (i : Z) : M state (option nat) :=
  logged (
    s <- get;; ret (findIndex i (users s))).

(** [findByEmail(email)] *)
Definition findByEmail (mail : string) : M state (option nat) :=
  logged (
    s <- get;;
    ret (fst <$> list_find
           (λ user, toLowerCase (email user) = toLowerCase mail) (users s))).

(** [update(id, updateData)] *)
Definition update (clock : nat → Z) (io : bool) (i : Z) (updateData : Patch.t)
  : M state public :=
  logged (
    s <- get;;
    match findIndex i (users s) with
    | None => throw (Error "User not found")
    | Some userIndex =>
        old <- deref userIndex;;
        modify (λ s, set_users
          (<[userIndex := merge old updateData (toISOString (clock 0%nat))]> (users s)) s);;
        saveUsers io;;
        u <- deref userIndex;;
        ret (withoutPassword u)
    end).

(** [delete(id)] *)
Definition delete (io : bool) (i : Z) : M state bool :=
  logged (
    s <- get;;
    match findIndex i (users s) with
    | None => throw (Error "User not found")
    | Some userIndex =>
        modify (λ s, set_users (base.delete userIndex (users s)) s);;
        saveUsers io;;
        ret true
    end).

(** [addRegisteredEvent(userId, eventId)] *)
Definition addRegisteredEvent (clock : nat → Z) (io : bool) (userId eventId : Z)
  : M state bool :=
  logged (
    found <- findById userId;;
    match found with
    | None => throw (Error "User not found")
    | Some user =>
        u <- deref user;;
        (if negb (Array_includes (registeredEvents u) eventId) then
           assign user (λ u, set_registeredEvents (registeredEvents u ++ [eventId]) u);;
           u <- deref user;;
           update clock io userId
             {| Patch.id := None; Patch.name := None; Patch.email := None;
                Patch.password := None;
                Patch.registeredEvents := Some (registeredEvents u);
                Patch.createdAt := None |};;
           ret tt
         else ret tt);;
        ret true
    end).

(** [removeRegisteredEvent(userId, eventId)] *)
Definition removeRegisteredEvent (clock : nat → Z) (io : bool) (userId eventId : Z)
  : M state bool :=
  logged (
    found <- findById userId;;
    match found with
    | None => throw (Error "User not found")
    | Some user =>
        assign user (λ u, set_registeredEvents
          (List.filter (λ id, negb (id =? eventId)) (registeredEvents u)) u);;
        u <- deref user;;
        update clock io userId
          {| Patch.id := None; Patch.name := None; Patch.email := None;
             Patch.password := None;
             Patch.registeredEvents := Some (registeredEvents u);
             Patch.createdAt := None |};;
        ret true
    end).

Section Bcrypt.

(** [bcrypt.compare(data, hash)] of the hashing library: it answers whether
    the text matches the hash, or rejects. *)
Variable bcrypt_compare : string → string → result bool.

Definition await {A} (r : result A) : M state A := λ s, (s, r).

(** [validatePassword(userId, password)] *)
Definition validatePassword (userId : Z) (plaintext : string) : M state bool :=
  try_catch
    (found <- findById userId;;
     match found with
     | None => ret false
     | Some user =>
         u <- deref user;;
         await (bcrypt_compare plaintext (password u))
     end)
    (λ _, ret false).

End Bcrypt.

(** [getAllUsers()] *)
Definition getAllUsers : M state (list public) :=
  logged (s <- get;; ret (withoutPassword <$> users s)).

(** [searchUsers(query)] *)
Definition searchUsers (query : string) : M state (list public) :=
  logged (
    let searchTerm := toLowerCase query in
    s <- get;;
    let filteredUsers :=
      List.filter (λ user,
        includes (toLowerCase (name user)) searchTerm ||
        includes (toLowerCase (email user)) searchTerm) (users s) in
    ret (withoutPassword <$> filteredUsers)).

(** What [getUserStats] returns. *)
Record userStats : Type := {
  totalEvents : Z;
  memberSince : string;
  lastUpdated : string
}.

(** [getUserStats(userId)] *)
Definition getUserStats (userId : Z) : M state userStats :=
  logged (
    found <- findById userId;;
    match found with
    | None => throw (Error "User not found")
    | Some user =>
        u <- deref user;;
        ret {| totalEvents := Z.of_nat (length (registeredEvents u));
               memberSince := createdAt u;
               lastUpdated := updatedAt u |}
    end).

Section Hash.

(** [bcrypt.hash(data, saltRounds)] of the hashing library: the hash it
    answers with, or a rejection. *)
Variable bcrypt_hash : string → Z → result string.

(** [changePassword(userId, newPassword)] *)
Definition changePassword (clock : nat → Z) (io : bool) (userId : Z)
    (newPassword : string) : M state bool :=
  logged (
    let saltRounds := 12 in
    hashedPassword <- await (bcrypt_hash newPassword saltRounds);;
    update clock io userId
      {| Patch.id := None; Patch.name := None; Patch.email := None;
         Patch.password := Some hashedPassword;
         Patch.registeredEvents := None; Patch.createdAt := None |};;
    ret true).

End Hash.

End User.

(** ** The authentication middleware ([middleware/auth.js]) *)

Module Auth.

Local Open Scope Z_scope.

(** The payload of a token: what [generateToken] signs and a verified token
    decodes to. *)
Record payload : Type := { id : Z; email : string; name : string }.

(** What [jwt.verify] does with a token: it returns the decoded payload, or
    throws an error with one of these names. *)
Inductive verdict : Type :=
  | Decoded (decoded : payload)
  | TokenExpiredError
  | JsonWebTokenError
  | OtherError.

(** What [authenticateToken] does: it calls [next()] with the decoded
    payload in [req.user], or answers with a status and a message. *)
Inductive reply : Type :=
  | Next (decoded : payload)
  | Status (code : Z) (message : string).

(** What [req.user] is when [optionalAuth] calls [next()]: left as it was,
    [null], or the decoded payload. *)
Inductive requestUser : Type :=
  | Untouched
  | NullUser
  | User (decoded : payload).

Section Jwt.

(** [process.env.JWT_SECRET], and the library: [jwt.verify(token, secret)]
    and [jwt.sign(payload, secret, { expiresIn })]. *)
Variable env_JWT_SECRET : option string.
Variable jwt_verify : string → string → verdict.
Variable jwt_sign : payload → string → string → result string.

(** [process.env.JWT_SECRET || 'your-secret-key-change-in-production'] *)
Definition JWT_SECRET : string :=
  match env_JWT_SECRET with
  | Some (String c s) => String c s
  | Some EmptyString | None => "your-secret-key-change-in-production"
  end.

(** [authHeader && authHeader.split(' ')[1]]; [None] is a falsy header or
    [undefined]. *)
Definition bearer (authHeader : option string) : option string :=
  match authHeader with
  | Some (String c s) => split " " (String c s) !! 1%nat
  | Some EmptyString | None => None
  end.

(** [authenticateToken(req, res, next)], given the [authorization] header. *)
Definition authenticateToken (authorization : option string) : reply :=
  let token := bearer authorization in
  match token with
  | None | Some EmptyString => Status 401 "Access token required"
  | Some token =>
      match jwt_verify token JWT_SECRET with
      | Decoded decoded => Next decoded
      | TokenExpiredError => Status 401 "Token expired"
      | JsonWebTokenError => Status 401 "Invalid token"
      | OtherError => Status 401 "Token verification failed"
      end
  end.

(** [generateToken(user)] *)
Definition generateToken (user : User.record) : result string :=
  jwt_sign {| id := User.id user; email := User.email user; name := User.name user |}
           JWT_SECRET "24h".

(** [optionalAuth(req, res, next)]: it always calls [next()]. *)
Definition optionalAuth (authorization : option string) : requestUser :=
  let token := bearer authorization in
  match token with
  | None | Some EmptyString => Untouched
  | Some token =>
      match jwt_verify token JWT_SECRET with
      | Decoded decoded => User decoded
      | TokenExpiredError | JsonWebTokenError | OtherError => NullUser
      end
  end.

End Jwt.

End Auth.

(** ** The account routes ([routes/auth.js]) *)

Module AuthRoutes.

Local Open Scope Z_scope.

(** The body of a request: a field that is absent is [None]. *)
Module Body.
Record t : Type := {
  name : option string;
  email : option string;
  password : option string
}.
End Body.

(** What a route answers: the status, and the fields of the JSON body that
    are present. *)
Record response : Type := {
  status : Z;
  success : bool;
  message : string;
  user : option User.public;
  token : option string
}.

Definition failure (code : Z) (message : string) : response :=
  {| status := code; success := false; message := message;
     user := None; token := None |}.

(** [!field] *)
Definition missing (field : option string) : bool :=
  match field with
  | Some (String _ _) => false
  | Some EmptyString | None => true
  end.

Section Routes.

Variable env_JWT_SECRET : option string.
Variable jwt_sign : Auth.payload → string → string → result string.
Variable bcrypt_hash : string → Z → result string.
Variable bcrypt_compare : string → string → result bool.

(** [POST /api/register] *)
Definition register (clock : nat → Z) (io : bool) (body : Body.t)
  : M User.state response :=
  try_catch
    (match Body.name body, Body.email body, Body.password body with
     | Some name, Some email, Some password =>
         if missing (Some name) || missing (Some email) || missing (Some password)
         then ret (failure 400 "All fields are required")
         else if Z.of_nat (String.length password) <? 6 then
           ret (failure 400 "Password must be at least 6 characters long")
         else
           existingUser <- User.findByEmail email;;
           match existingUser with
           | Some _ => ret (failure 409 "User with this email already exists")
           | None =>
               let saltRounds := 12 in
               hashedPassword <- User.await (bcrypt_hash password saltRounds);;
               newUser <- User.create clock io
                 {| User.Data.name := name; User.Data.email := email;
                    User.Data.password := hashedPassword |};;
               ret {| status := 201; success := true;
                      message := "User registered successfully";
                      user := Some newUser; token := None |}
           end
     | _, _, _ => ret (failure 400 "All fields are required")
     end)
    (λ _, ret (failure 500 "Internal server error during registration")).

(** [POST /api/login] *)
Definition login (body : Body.t) : M User.state response :=
  try_catch
    (match Body.email body, Body.password body with
     | Some email, Some password =>
         if missing (Some email) || missing (Some password)
         then ret (failure 400 "Email and password are required")
         else
           found <- User.findByEmail email;;
           match found with
           | None => ret (failure 401 "Invalid email or password")
           | Some user =>
               u <- User.deref user;;
               isPasswordValid <- User.await (bcrypt_compare password (User.password u));;
               if negb isPasswordValid then
                 ret (failure 401 "Invalid email or password")
               else
                 token <- User.await (Auth.generateToken env_JWT_SECRET jwt_sign u);;
                 ret {| status := 200; success := true;
                        message := "Login successful";
                        user := Some (User.withoutPassword u);
                        token := Some token |}
           end
     | _, _ => ret (failure 400 "Email and password are required")
     end)
    (λ _, ret (failure 500 "Internal server error during login")).

End Routes.

End AuthRoutes.

(** ** The event routes ([routes/events.js]) *)

Module EventRoutes.

Local Open Scope Z_scope.

(** *** The router.  A path is the list of its segments; a pattern segment
    is a literal, compared without regard to case, or a parameter, which
    takes any segment that is not empty.  A request goes to the first route, in the order of
    the file, whose method and pattern fit; every handler answers and none
    passes the request on. *)
Inductive method : Type := GET | POST | PUT | DELETE.

Inductive segment : Type :=
  | Literal (text : string)
  | Param (name : string).

Inductive route : Type :=
  | GetAllEvents
  | GetEventById
  | CreateEvent
  | RegisterForEvent
  | UpdateEvent
  | DeleteEvent
  | GetEventsByCategory
  | SearchEvents.

Definition routes : list (method * list segment * route) :=
  [ (GET, [], GetAllEvents);
    (GET, [Param "id"], GetEventById);
    (POST, [], CreateEvent);
    (POST, [Param "id"; Literal "register"], RegisterForEvent);
    (PUT, [Param "id"], UpdateEvent);
    (DELETE, [Param "id"], DeleteEvent);
    (GET, [Literal "category"; Param "category"], GetEventsByCategory);
    (GET, [Literal "search"], SearchEvents) ].

Definition same_method (a b : method) : bool :=
  match a, b with
  | GET, GET | POST, POST | PUT, PUT | DELETE, DELETE => true
  | _, _ => false
  end.

(** The parameters a path gives a pattern, or [None] when it does not fit. *)
Fixpoint fits (pattern : list segment) (path : list string)
  : option (list (string * string)) :=
  match pattern, path with
  | [], [] => Some []
  | Literal text :: pattern', part :: path' =>
      if String.eqb (toLowerCase text) (toLowerCase part) then fits pattern' path'
      else None
  | Param name :: pattern', part :: path' =>
      match part with
      | EmptyString => None
      | String _ _ => params ← fits pattern' path'; Some ((name, part) :: params)
      end
  | _, _ => None
  end.

Fixpoint dispatch_in (table : list (method * list segment * route))
    (m : method) (path : list string) : option (route * list (string * string)) :=
  match table with
  | [] => None
  | (m', pattern, r) :: rest =>
      match (if same_method m m' then fits pattern path else None) with
      | Some params => Some (r, params)
      | None => dispatch_in rest m path
      end
  end.

Definition dispatch (m : method) (path : list string)
  : option (route * list (string * string)) :=
  dispatch_in routes m path.

(** *** The handlers. *)

(** What a route answers. *)
Record response : Type := {
  status : Z;
  success : bool;
  message : option string;
  event : option Event.record;
  events : option (list Event.record);
  category : option string;
  query : option string;
  total : option Z
}.

Definition failure (code : Z) (message : string) : response :=
  {| status := code; success := false; message := Some message;
     event := None; events := None;
     category := None; query := None; total := None |}.

(** A path parameter reaches the store as text; there [parseInt] reads it,
    and [event.id === parseInt(id)] holds for no event when it reads no
    number. *)
Definition Event_findById (id : string) : M Event.state (option nat) :=
  match parseInt id with
  | Num i => Event.findById i
  | _ => logged (ret None)
  end.

Definition Event_delete (io : bool) (id : string) : M Event.state bool :=
  match parseInt id with
  | Num i => Event.delete io i
  | _ => logged (throw (Error "Event not found"))
  end.

Definition Event_update (clock : nat → Z) (io : bool) (id : string)
    (updateData : Event.Patch.t) : M Event.state Event.record :=
  match parseInt id with
  | Num i => Event.update clock io i updateData
  | _ => logged (throw (Error "Event not found"))
  end.

(** [GET /api/events/:id] *)
Definition getEventById (id : string) : M Event.state response :=
  try_catch
    (let eventId := id in
     found <- Event_findById eventId;;
     match found with
     | None => ret (failure 404 "Event not found")
     | Some event =>
         e <- Event.deref event;;
         ret {| status := 200; success := true; message := None;
                event := Some e; events := None;
                category := None; query := None; total := None |}
     end)
    (λ _, ret (failure 500 "Failed to fetch event")).

(** [GET /api/events/search?q=query] *)
Definition searchEvents (q : option string) : M Event.state response :=
  try_catch
    (match q with
     | Some (String c s) =>
         let query := String c s in
         events <- Event.search query;;
         ret {| status := 200; success := true; message := None;
                event := None; events := Some events;
                category := None; query := Some query;
                total := Some (Z.of_nat (length events)) |}
     | Some EmptyString | None => ret (failure 400 "Search query is required")
     end)
    (λ _, ret (failure 500 "Failed to search events")).

(** [GET /api/events/category/:category] *)
Definition getEventsByCategory (category : string) : M Event.state response :=
  try_catch
    (events <- Event.findByCategory category;;
     ret {| status := 200; success := true; message := None;
            event := None; events := Some events;
            category := Some category; query := None;
            total := Some (Z.of_nat (length events)) |})
    (λ _, ret (failure 500 "Failed to fetch events by category")).

Section Protected.

Variable env_JWT_SECRET : option string.
Variable jwt_verify : string → string → Auth.verdict.

(** A route behind [authenticateToken]: the handler runs with [req.user]
    when the middleware calls [next()]. *)
Definition authenticated (authorization : option string)
    (handler : Auth.payload → M Event.state response) : M Event.state response :=
  match Auth.authenticateToken env_JWT_SECRET jwt_verify authorization with
  | Auth.Next user => handler user
  | Auth.Status code message => ret (failure code message)
  end.

(** [PUT /api/events/:id] *)
Definition updateEvent (clock : nat → Z) (io : bool)
    (authorization : option string) (id : string) (body : Event.Patch.t)
  : M Event.state response :=
  authenticated authorization (λ user,
    try_catch
      (let eventId := id in
       found <- Event_findById eventId;;
       match found with
       | None => ret (failure 404 "Event not found")
       | Some event =>
           e <- Event.deref event;;
           if negb (Event.organizerId e =? Auth.id user) then
             ret (failure 403 "Only the event organizer can update this event")
           else
             updatedEvent <- Event_update clock io eventId body;;
             ret {| status := 200; success := true;
                    message := Some "Event updated successfully";
                    event := Some updatedEvent; events := None;
                    category := None; query := None; total := None |}
       end)
      (λ _, ret (failure 500 "Failed to update event"))).

(** [DELETE /api/events/:id] *)
Definition deleteEvent (io : bool) (authorization : option string) (id : string)
  : M Event.state response :=
  authenticated authorization (λ user,
    try_catch
      (let eventId := id in
       found <- Event_findById eventId;;
       match found with
       | None => ret (failure 404 "Event not found")
       | Some event =>
           e <- Event.deref event;;
           if negb (Event.organizerId e =? Auth.id user) then
             ret (failure 403 "Only the event organizer can delete this event")
           else
             Event_delete io eventId;;
             ret {| status := 200; success := true;
                    message := Some "Event deleted successfully";
                    event := None; events := None;
                    category := None; query := None; total := None |}
       end)
      (λ _, ret (failure 500 "Failed to delete event"))).

End Protected.

End EventRoutes.

(** ** Vocabulary of the statements *)

Module EventSpec.

Import Event.
Local Open Scope Z_scope.

(** The event [findById] refers to: the first event with that id, with its
    slot. *)
Definition target (eventId : Z) (s : state) : option (nat * record) :=
  list_find (λ ev, id ev = eventId) (events s).

(** An event object after registrations were written to it and [update]
    replaced it by its copy. *)
Definition rewritten (e : record) (users : list Z) (n : Z) (now : string)
  : record :=
  {| id := id e; title := title e; category := category e; date := date e;
     time := time e; location := location e; description := description e;
     capacity := capacity e; price := price e; organizerId := organizerId e;
     organizerName := organizerName e; registrations := n;
     registeredUsers := users; createdAt := createdAt e; updatedAt := now |}.

(** The end of every mutating method: write the collection to disk, then
    return. *)
Definition commit {V} (io : bool) (s : state) (v : V) : state * result V :=
  if io then (set_dataFile (stringify (events s)) s, Ok v)
  else (s, Throw (SystemError "EIO")).

End EventSpec.

Module EventLife.

Import Event.
Local Open Scope Z_scope.

(** The object [create] builds when [this.nextId] is [n]. *)
Definition fresh (n : Z) (clock : nat → Z) (eventData : Data.t) : record :=
  {| id := n;
     title := Data.title eventData;
     category := Data.category eventData;
     date := Data.date eventData;
     time := Data.time eventData;
     location := Data.location eventData;
     description := Data.description eventData;
     capacity := parseInt (Data.capacity eventData);
     price := parseFloat (Data.price eventData);
     organizerId := Data.organizerId eventData;
     organizerName := Data.organizerName eventData;
     registrations := default 0 (Data.registrations eventData);
     registeredUsers := default [] (Data.registeredUsers eventData);
     createdAt := toISOString (clock 0%nat);
     updatedAt := toISOString (clock 1%nat) |}.

(** One [create] call: its clock, whether the write to disk succeeds, and
    its argument. *)
Definition call : Type := (nat → Z) * bool * Data.t.

(** A sequence of [create] calls on one instance, with what each call
    returned or threw. *)
Fixpoint creates (calls : list call) (s : state) : state * list (result record) :=
  match calls with
  | [] => (s, [])
  | (clock, io, eventData) :: rest =>
      let '(s1, r) := create clock io eventData s in
      let '(s2, rs) := creates rest s1 in
      (s2, r :: rs)
  end.

(** A process restart after the file was written: a new instance, then
    [init()]. *)
Definition restart (readable : bool) (s : state) : state :=
  (init readable (constructor (dataFile s))).1.





End EventLife.

Module UserSpec.

Import User.
Local Open Scope Z_scope.

(** The user [findById] refers to: the first user with that id, with its
    slot. *)
Definition target (userId : Z) (s : state) : option (nat * record) :=
  list_find (λ u, id u = userId) (users s).

(** A user object after its list of events was written and [update] replaced
    it by its copy. *)
Definition rewritten (u : record) (eventIds : list Z) (now : string) : record :=
  {| id := id u; name := name u; email := email u; password := password u;
     registeredEvents := eventIds; createdAt := createdAt u; updatedAt := now |}.

(** The end of every mutating method: write the collection to disk, then
    return. *)
Definition commit {V} (io : bool) (s : state) (v : V) : state * result V :=
  if io then (set_dataFile (stringify (users s)) s, Ok v)
  else (s, Throw (SystemError "EIO")).

(** The object [create] builds when [this.nextId] is [n]. *)
Definition fresh (n : Z) (clock : nat → Z) (userData : Data.t) : record :=
  {| id := n;
     name := Data.name userData;
     email := toLowerCase (Data.email userData);
     password := Data.password userData;
     registeredEvents := [];
     createdAt := toISOString (clock 0%nat);
     updatedAt := toISOString (clock 1%nat) |}.

Definition call : Type := (nat → Z) * bool * Data.t.

(** A sequence of [create] calls on one instance, with what each call
    returned or threw. *)
Fixpoint creates (calls : list call) (s : state) : state * list (result public) :=
  match calls with
  | [] => (s, [])
  | (clock, io, userData) :: rest =>
      let '(s1, r) := create clock io userData s in
      let '(s2, rs) := creates rest s1 in
      (s2, r :: rs)
  end.

(** A process restart after the file was written. *)
Definition restart (readable : bool) (s : state) : state :=
  (init readable (constructor (dataFile s))).1.

End UserSpec.

(** Descending order of an integer key. *)
Definition descending {A : Type} (key : A → Z) (a b : A) : Prop :=
  (key b ≤ key a)%Z.

Module EventQueries.

Import Event.
Local Open Scope Z_scope.

(** The event has a start the engine can read. *)
Definition dated (LocalTZA : Z → Z) (e : record) : Prop :=
  ∃ t, start LocalTZA e = Num t.

(** The start of a dated event. *)
Definition instant (LocalTZA : Z → Z) (e : record) : Z :=
  match start LocalTZA e with
  | Num t => t
  | _ => 0
  end.

(** [a] starts no later than [b]. *)
Definition le_start (LocalTZA : Z → Z) (a b : record) : Prop :=
  ∃ x y, start LocalTZA a = Num x ∧ start LocalTZA b = Num y ∧ x ≤ y.

(** 2020-01-01T10:00 and 2099-01-01T10:00 as local time values. *)
Definition local_2020 : Z := 1577872800000.
Definition local_2099 : Z := 4070944800000.

(** [t] occurs in [s]. *)
Definition occurs (t s : string) : Prop := ∃ pre post, s = pre +:+ t +:+ post.

(** The lowercased term occurs in the lowercased title, description,
    location or category. *)
Definition Matches (term : string) (e : record) : Prop :=
  occurs (toLowerCase term) (toLowerCase (title e))
  ∨ occurs (toLowerCase term) (toLowerCase (description e))
  ∨ occurs (toLowerCase term) (toLowerCase (location e))
  ∨ occurs (toLowerCase term) (toLowerCase (category e)).

End EventQueries.

Module EventMore.

Import Event.
Local Open Scope Z_scope.

(** The event starts after [now]. *)
Definition upcoming (LocalTZA : Z → Z) (now : Z) (e : record) : Prop :=
  ∃ t, start LocalTZA e = Num t ∧ now < t.

(** The event started at [now] or before. *)
Definition past (LocalTZA : Z → Z) (now : Z) (e : record) : Prop :=
  ∃ t, start LocalTZA e = Num t ∧ t ≤ now.

(** [a] has at least as many registrations as [b]. *)
Definition more_popular (a b : record) : Prop :=
  registrations b ≤ registrations a.

(** The event [findById] returns, if any. *)
Definition event_with (i : Z) (s : state) : option record :=
  snd <$> EventSpec.target i s.


(** The number of events of a category. *)
Definition in_category (c : string) (l : list record) : Z :=
  Z.of_nat (length (filter (λ e, category e = c) l)).

(** The event has no start the engine can read. *)
Definition undated (LocalTZA : Z → Z) (e : record) : bool :=
  match start LocalTZA e with
  | Num _ => false
  | _ => true
  end.

(** An entry of the histogram for a category that occurs [n] times. *)
Definition counted (n : Z) : option property :=
  if n =? 0 then None else Some (Count n).

(** The number of entries in the lists of registered users. *)
Definition registered_entries (l : list record) : Z :=
  Z.of_nat (length (concat (registeredUsers <$> l))).

End EventMore.

Module UserMore.

Import User.
Local Open Scope Z_scope.

(** No two users have the same email, compared without regard to case. *)
Definition distinct_emails (s : state) : Prop :=
  NoDup ((λ u, toLowerCase (email u)) <$> users s).

(** The user [findByEmail] refers to, with its slot. *)
Definition by_email (mail : string) (s : state) : option (nat * record) :=
  list_find (λ u, toLowerCase (email u) = toLowerCase mail) (users s).

End UserMore.

Module HttpSpec.

Local Open Scope Z_scope.

(** The text has no space in it. *)
Fixpoint spaceless (s : string) : bool :=
  match s with
  | EmptyString => true
  | String c s' => negb (Ascii.eqb c " ") && spaceless s'
  end.

(** The request carries a token that verifies, and its user is the organizer
    of the event the path parameter refers to. *)
Definition from_organizer (env_JWT_SECRET : option string)
    (jwt_verify : string → string → Auth.verdict)
    (authorization : option string) (id : string) (s : Event.state) : Prop :=
  ∃ user i k e,
    Auth.authenticateToken env_JWT_SECRET jwt_verify authorization = Auth.Next user
    ∧ parseInt id = Num i
    ∧ EventSpec.target i s = Some (k, e)
    ∧ Event.organizerId e = Auth.id user.

(** The answer of [GET /api/events/:id] with an event. *)
Definition found_event (e : Event.record) : EventRoutes.response :=
  {| EventRoutes.status := 200; EventRoutes.success := true;
     EventRoutes.message := None; EventRoutes.event := Some e;
     EventRoutes.events := None; EventRoutes.category := None;
     EventRoutes.query := None; EventRoutes.total := None |}.

(** The answer of [POST /api/login] to a user who may log in. *)
Definition logged_in (u : User.record) (token : string) : AuthRoutes.response :=
  {| AuthRoutes.status := 200; AuthRoutes.success := true;
     AuthRoutes.message := "Login successful";
     AuthRoutes.user := Some (User.withoutPassword u);
     AuthRoutes.token := Some token |}.

End HttpSpec.

(** ** Sample data *)

Module Samples.

Import Event.
Local Open Scope Z_scope.

(** Clock readings on 2 November 2026. *)
Definition clk (n : nat) : Z := 1793622896789 + Z.of_nat n.

(** A request to create an event. *)
Definition request (capacity : string) (users : option (list Z)) : Data.t :=
  {| Data.title := "Jazz Night"; Data.category := "Music";
     Data.date := "2099-01-01"; Data.time := "10:00";
     Data.location := "Town Hall"; Data.description := "A Music Festival";
     Data.capacity := capacity; Data.price := "12.50";
     Data.organizerId := 1; Data.organizerName := "Ann";
     Data.registrations := None; Data.registeredUsers := users |}.

(** The event such a request creates in a new store, with a given capacity,
    counter and list. *)
Definition jazz (capacity : jsval Z) (n : Z) (users : list Z) (updated : string)
  : record :=
  {| id := 1; title := "Jazz Night"; category := "Music";
     date := "2099-01-01"; time := "10:00"; location := "Town Hall";
     description := "A Music Festival"; capacity := capacity;
     price := Num (Qmake 1250 100); organizerId := 1; organizerName := "Ann";
     registrations := n; registeredUsers := users;
     createdAt := "2026-11-02T12:34:56.789Z"; updatedAt := updated |}.

(** A store holding one event, saved. *)
Definition saved (e : record) : state :=
  {| events := [e]; nextId := 2; dataFile := Some (stringify [e]) |}.

(** One seat, nobody registered. *)
Definition one_seat : state :=
  saved (jazz (Num 1) 0 [] "2026-11-02T12:34:56.790Z").

(** One seat, taken by user 7. *)
Definition sold_out : state :=
  saved (jazz (Num 1) 1 [7] "2026-11-02T12:34:56.789Z").

(** Ten seats, user 7 in the list, the counter at 0. *)
Definition uncounted : state :=
  saved (jazz (Num 10) 0 [7] "2026-11-02T12:34:56.790Z").

(** The same after user 7 was unregistered. *)
Definition emptied : state :=
  saved (jazz (Num 10) 0 [] "2026-11-02T12:34:56.789Z").

(** A capacity that is not a number. *)
Definition unbounded : state :=
  saved (jazz NaN 0 [] "2026-11-02T12:34:56.790Z").

End Samples.

Module Listings.

Import Event.
Local Open Scope Z_scope.

(** An event with a given id, date and time. *)
Definition dated_event (i : Z) (date time : string) : record :=
  {| id := i; title := "Jazz Night"; category := "Music";
     date := date; time := time; location := "Town Hall";
     description := "A Music Festival"; capacity := Num 100;
     price := Num (Qmake 1250 100); organizerId := 1; organizerName := "Ann";
     registrations := 0; registeredUsers := [];
     createdAt := "2019-06-01T00:00:00.000Z";
     updatedAt := "2019-06-01T00:00:00.000Z" |}.

Definition in_2099 : record := dated_event 1 "2099-01-01" "10:00".
Definition undated : record := dated_event 2 "TBD" "TBD".
Definition in_2020 : record := dated_event 3 "2020-01-01" "10:00".

(** A store holding the given events. *)
Definition listing (l : list record) : state :=
  {| events := l; nextId := 4; dataFile := None |}.

(** A host on UTC. *)
Definition utc (t : Z) : Z := 0.

(** Clock readings on 1 January 2100. *)
Definition clk_2100 (n : nat) : Z := 4102444800000 + Z.of_nat n.

End Listings.

Module Members.

Import User.
Local Open Scope Z_scope.

(** A user registered for event 3. *)
Definition ann : record :=
  {| id := 1; name := "Ann"; email := "ann@example.org";
     password := "hash of secret"; registeredEvents := [3];
     createdAt := "2026-11-02T12:34:56.789Z";
     updatedAt := "2026-11-02T12:34:56.790Z" |}.

Definition members : state :=
  {| users := [ann]; nextId := 2; dataFile := None |}.

(** A stand-in for the hashing library: it rejects an empty hash. *)
Definition compare (plaintext hash : string) : result bool :=
  if String.eqb hash "" then Throw (Error "Illegal arguments")
  else Ok (String.eqb hash ("hash of " +:+ plaintext)).

End Members.

Module Requests.

Local Open Scope Z_scope.

(** A clock that stands still. *)
Definition frozen (n : nat) : Z := 1793622896789.

(** A stand-in for the hashing library, the counterpart of
    [Members.compare]: it rejects an empty password. *)
Definition hash (plaintext : string) (saltRounds : Z) : result string :=
  if String.eqb plaintext "" then Throw (Error "Illegal arguments")
  else Ok ("hash of " +:+ plaintext).

(** Stand-ins for the token library: a token names the email of its user. *)
Definition sign (decoded : Auth.payload) (secret expiresIn : string)
  : result string :=
  Ok ("token-" +:+ Auth.email decoded).

Definition ann : Auth.payload :=
  {| Auth.id := 1; Auth.email := "ann@example.org"; Auth.name := "Ann" |}.

Definition bob : Auth.payload :=
  {| Auth.id := 2; Auth.email := "bob@example.org"; Auth.name := "Bob" |}.

Definition verify (token secret : string) : Auth.verdict :=
  if String.eqb token "token-ann@example.org" then Auth.Decoded ann
  else if String.eqb token "token-bob@example.org" then Auth.Decoded bob
  else if String.eqb token "old" then Auth.TokenExpiredError
  else Auth.JsonWebTokenError.

(** The body of a request to register or to log in. *)
Definition form (name email password : string) : AuthRoutes.Body.t :=
  {| AuthRoutes.Body.name := Some name; AuthRoutes.Body.email := Some email;
     AuthRoutes.Body.password := Some password |}.

(** A request to create a user. *)
Definition bob_data : User.Data.t :=
  {| User.Data.name := "Bob"; User.Data.email := "Bob@Example.org";
     User.Data.password := "hash of hunter22" |}.

(** Update data that holds nothing. *)
Definition no_change : User.Patch.t :=
  {| User.Patch.id := None; User.Patch.name := None; User.Patch.email := None;
     User.Patch.password := None; User.Patch.registeredEvents := None;
     User.Patch.createdAt := None |}.

End Requests.

(** * Properties *)

(** ** The built-ins on small inputs *)

Section BuiltIns.

Import Listings.
Local Open Scope Z_scope.

Example parseInt_digits : parseInt "50" = Num 50.
Proof. reflexivity. Qed.

Example parseInt_prefix : parseInt "  42 seats" = Num 42.
Proof. reflexivity. Qed.

Example parseInt_hex : parseInt "-0x1F" = Num (-31).
Proof. reflexivity. Qed.

Example parseInt_letters : parseInt "abc" = NaN.
Proof. reflexivity. Qed.

Example parseInt_empty : parseInt "" = NaN.
Proof. reflexivity. Qed.

Example parseFloat_decimal : parseFloat "12.50" = Num (Qmake 1250 100).
Proof. reflexivity. Qed.

Example parseFloat_exponent : parseFloat "1e3 euros" = Num (Qmake 1000 1).
Proof. reflexivity. Qed.

Example parseFloat_free : parseFloat "free" = NaN.
Proof. reflexivity. Qed.

Example parseFloat_largest :
  parseFloat "1.7976931348623158e308" ≠ Infinity false
  ∧ parseFloat "1.7976931348623159e308" = Infinity false.
Proof. split; vm_compute; [discriminate | reflexivity]. Qed.

Example ge_val_null : ge_val 0 Null = true ∧ ge_val 0 NaN = false.
Proof. split; reflexivity. Qed.

Example toLowerCase_mixed : toLowerCase "Music Festival 2099!" = "music festival 2099!".
Proof. reflexivity. Qed.

Example includes_inside : includes "a music festival" "music" = true.
Proof. reflexivity. Qed.

Example includes_empty : includes "" "" = true ∧ includes "" "a" = false.
Proof. split; reflexivity. Qed.

Example Date_parse_utc : Date_parse utc "2020-01-01T10:00" = Num 1577872800000.
Proof. reflexivity. Qed.

Example Date_parse_east :
  Date_parse (λ _, 19800000) "2020-01-01T10:00" = Num 1577853000000.
Proof. reflexivity. Qed.

Example Date_parse_offset :
  Date_parse utc "2026-11-02T12:34:56+05:30" = Num 1793603096000.
Proof. reflexivity. Qed.

Example Date_parse_leap : Date_parse utc "2000-02-29T00:00:00.000Z" = Num 951782400000.
Proof. reflexivity. Qed.

Example Date_parse_words : Date_parse utc "TBDTTBD" = NaN.
Proof. reflexivity. Qed.

Example toISOString_epoch : toISOString 0 = "1970-01-01T00:00:00.000Z".
Proof. reflexivity. Qed.

Example toISOString_before : toISOString (-1) = "1969-12-31T23:59:59.999Z".
Proof. reflexivity. Qed.

Example toISOString_leap : toISOString 951782400000 = "2000-02-29T00:00:00.000Z".
Proof. reflexivity. Qed.

Example sort_numbers :
  sort (λ a b, Num (a - b)) [5; 3; 1; 3; 4] = [1; 3; 3; 4; 5].
Proof. reflexivity. Qed.

Example sort_NaN :
  sort minus [Num 5; NaN; Num 1] = [Num 5; NaN; Num 1].
Proof. reflexivity. Qed.

Example classify_messages :
  classify (Error "Event not found") = NotFound
  ∧ classify (Error "Event is full") = Conflict
  ∧ classify (SystemError "EIO") = IOFailure.
Proof. repeat split. Qed.

End BuiltIns.
(** ** Lists as arrays *)

Section Arrays.

Context {A : Type} (P : A → Prop) `{!∀ x, Decision (P x)}.

(** Overwriting the slot [find] returns with an object that still satisfies
    the test leaves [find] at that slot. *)
Lemma list_find_overwrite (l : list A) (k : nat) (x y : A) :
  list_find P l = Some (k, x) → P y →
  list_find P (<[k:=y]> l) = Some (k, y).
Proof.
  intros Hf Hy. apply list_find_Some in Hf as (Hk & _ & Hmin).
  apply list_find_Some. split; [|split; [exact Hy|]].
  - apply list_lookup_insert_eq. by eapply lookup_lt_Some.
  - intros j z Hj Hlt. rewrite list_lookup_insert_ne in Hj by lia. eauto.
Qed.

Lemma list_find_slot (l : list A) (k : nat) (x : A) :
  list_find P l = Some (k, x) → l !! k = Some x ∧ k < length l.
Proof.
  intros Hf. apply list_find_Some in Hf as (Hk & _ & _).
  split; [done | by eapply lookup_lt_Some].
Qed.

End Arrays.

(** ** Effects *)

(** The logging frame rethrows what it caught. *)
Lemma logged_run {S A} (c : M S A) (s : S) : logged c s = c s.
Proof. unfold logged, try_catch, throw. by destruct (c s) as [s' [a|e]]. Qed.

(** ** The event store, operation by operation *)

Section EventRuns.

Import Event EventSpec.
Local Open Scope Z_scope.

Lemma findById_run i s : findById i s = (s, Ok (findIndex i (events s))).
Proof. unfold findById. by rewrite logged_run. Qed.

Lemma saveEvents_run io s : saveEvents io s = commit io s tt.
Proof. unfold saveEvents, commit. rewrite logged_run. by destruct io. Qed.

Lemma deref_run ref s e : events s !! ref = Some e → deref ref s = (s, Ok e).
Proof. unfold deref, bind, get, ret. simpl. by intros ->. Qed.

Lemma assign_run ref f s e :
  events s !! ref = Some e →
  assign ref f s = (set_events (<[ref:=f e]> (events s)) s, Ok tt).
Proof. intros He. unfold assign, bind. by rewrite (deref_run _ _ _ He). Qed.

Lemma update_run clock io i updateData s :
  update clock io i updateData s =
  match target i s with
  | None => (s, Throw (Error "Event not found"))
  | Some (k, e) =>
      let e' := merge e updateData (toISOString (clock 0%nat)) in
      commit io (set_events (<[k:=e']> (events s)) s) e'
  end.
Proof.
  unfold update, target, findIndex. rewrite logged_run. unfold bind at 1, get.
  destruct (list_find _ _) as [[k e]|] eqn:Hf; simpl; [|done].
  apply list_find_slot in Hf as [Hk Hlt].
  unfold bind at 1. rewrite (deref_run _ _ _ Hk).
  unfold bind at 1, modify. unfold bind at 1. rewrite saveEvents_run.
  unfold commit. destruct io; simpl; [|done].
  erewrite deref_run; [done|]. simpl. by rewrite list_lookup_insert_eq.
Qed.

Lemma delete_run io i s :
  delete io i s =
  match target i s with
  | None => (s, Throw (Error "Event not found"))
  | Some (k, _) => commit io (set_events (base.delete k (events s)) s) true
  end.
Proof.
  unfold delete, target, findIndex. rewrite logged_run. unfold bind at 1, get.
  destruct (list_find _ _) as [[k e]|]; simpl; [|done].
  unfold bind at 1, modify. unfold bind at 1. rewrite saveEvents_run.
  unfold commit. by destruct io.
Qed.

Lemma registerUser_run clock io eventId userId s :
  registerUser clock io eventId userId s =
  match target eventId s with
  | None => (s, Throw (Error "Event not found"))
  | Some (k, e) =>
      if ge_val (registrations e) (capacity e) then
        (s, Throw (Error "Event is full"))
      else if Array_includes (registeredUsers e) userId then
        (s, Throw (Error "User already registered for this event"))
      else
        let e' := rewritten e (registeredUsers e ++ [userId])
                    (registrations e + 1) (toISOString (clock 0%nat)) in
        commit io (set_events (<[k:=e']> (events s)) s) true
  end.
Proof.
  unfold registerUser. rewrite logged_run.
  unfold bind at 1. rewrite findById_run. unfold findIndex, target.
  destruct (list_find _ _) as [[k e]|] eqn:Hf; simpl; [|done].
  pose proof Hf as [Hk Hlt]%list_find_slot.
  unfold bind at 1. rewrite (deref_run _ _ _ Hk).
  destruct (ge_val _ _); [done|].
  destruct (Array_includes _ _); [done|].
  unfold bind at 1. rewrite (assign_run _ _ _ _ Hk).
  unfold bind at 1. erewrite assign_run
    by (simpl; by apply list_lookup_insert_eq).
  simpl. rewrite list_insert_insert_eq.
  unfold bind at 1. erewrite deref_run
    by (simpl; by apply list_lookup_insert_eq).
  unfold bind at 1. rewrite update_run. unfold target. simpl.
  erewrite list_find_overwrite; [| exact Hf | by apply list_find_Some in Hf as (_ & ? & _)].
  rewrite list_insert_insert_eq.
  unfold commit. by destruct io.
Qed.

Lemma unregisterUser_run clock io eventId userId s :
  unregisterUser clock io eventId userId s =
  match target eventId s with
  | None => (s, Throw (Error "Event not found"))
  | Some (k, e) =>
      if negb (Array_includes (registeredUsers e) userId) then
        (s, Throw (Error "User not registered for this event"))
      else
        let e' := rewritten e
                    (List.filter (λ id, negb (id =? userId)) (registeredUsers e))
                    (Z.max 0 (registrations e - 1)) (toISOString (clock 0%nat)) in
        commit io (set_events (<[k:=e']> (events s)) s) true
  end.
Proof.
  unfold unregisterUser. rewrite logged_run.
  unfold bind at 1. rewrite findById_run. unfold findIndex, target.
  destruct (list_find _ _) as [[k e]|] eqn:Hf; simpl; [|done].
  pose proof Hf as [Hk Hlt]%list_find_slot.
  unfold bind at 1. rewrite (deref_run _ _ _ Hk).
  destruct (Array_includes _ _); [|done]. simpl.
  unfold bind at 1. rewrite (assign_run _ _ _ _ Hk).
  unfold bind at 1. erewrite assign_run
    by (simpl; by apply list_lookup_insert_eq).
  simpl. rewrite list_insert_insert_eq.
  unfold bind at 1. erewrite deref_run
    by (simpl; by apply list_lookup_insert_eq).
  unfold bind at 1. rewrite update_run. unfold target. simpl.
  erewrite list_find_overwrite; [| exact Hf | by apply list_find_Some in Hf as (_ & ? & _)].
  rewrite list_insert_insert_eq.
  unfold commit. by destruct io.
Qed.

(** Whatever [commit] answers, the collection in memory is the one it was
    given. *)
Lemma commit_events {V} io s (v : V) : events (commit io s v).1 = events s.
Proof. unfold commit. by destruct io. Qed.

Lemma target_rewrite eventId s k e e' :
  target eventId s = Some (k, e) → id e' = eventId →
  target eventId (set_events (<[k:=e']> (events s)) s) = Some (k, e').
Proof. unfold target. simpl. intros. by eapply list_find_overwrite. Qed.

Lemma target_commit {V} eventId io s (v : V) :
  target eventId (commit io s v).1 = target eventId s.
Proof. unfold target. by rewrite commit_events. Qed.

End EventRuns.

(** ** Registration bookkeeping *)

Section Registration.

Import Event EventSpec.
Local Open Scope Z_scope.

Lemma Array_includes_spec (l : list Z) (x : Z) :
  Array_includes l x = true ↔ x ∈ l.
Proof.
  unfold Array_includes. rewrite existsb_exists, list_elem_of_In.
  split.
  - intros (y & Hy & Heq). by apply Z.eqb_eq in Heq as ->.
  - intros Hx. exists x. split; [done | apply Z.eqb_refl].
Qed.

Lemma Array_includes_push (l : list Z) (x : Z) :
  Array_includes (l ++ [x]) x = true.
Proof. apply Array_includes_spec, elem_of_app. right. by apply list_elem_of_singleton. Qed.

(** The array [filter(id => id !== userId)] builds. *)
Lemma filter_others (l : list Z) (x : Z) :
  List.filter (λ id, negb (id =? x)) l = filter (λ id, id ≠ x) l.
Proof.
  induction l as [|y l IH]; [done|]. simpl. rewrite filter_cons.
  destruct (Z.eqb_spec y x); simpl.
  - by rewrite decide_False by (intros ?; congruence).
  - by rewrite decide_True, IH.
Qed.

Lemma target_id eventId s k e : target eventId s = Some (k, e) → id e = eventId.
Proof. intros Ht. by apply list_find_Some in Ht as (_ & ? & _). Qed.

(** C1: a call for an event whose counter equals its capacity fails with the
    Conflict "Event is full"; and if the counter of the event equals the
    length of its list of registered users before a call, it does so after
    the call, whether the call returned or threw. *)
Theorem registerUser_full_and_consistent clock io eventId userId s k e :
  target eventId s = Some (k, e) →
  (capacity e = Num (registrations e) →
     registerUser clock io eventId userId s = (s, Throw (Error "Event is full"))
     ∧ classify (Error "Event is full") = Conflict)
  ∧ (registrations e = Z.of_nat (length (registeredUsers e)) →
     ∃ e', target eventId (registerUser clock io eventId userId s).1 = Some (k, e')
           ∧ registrations e' = Z.of_nat (length (registeredUsers e'))).
Proof.
  intros Ht. rewrite registerUser_run, Ht. split.
  - intros ->. simpl. by rewrite Z.leb_refl.
  - intros Hinv.
    destruct (ge_val _ _); [by exists e|].
    destruct (Array_includes _ _); [by exists e|].
    eexists. split.
    + rewrite target_commit. eapply target_rewrite; [exact Ht | by apply target_id in Ht].
    + simpl. rewrite length_app. simpl. lia.
Qed.

(** C2, as amended: after a call that returned, the same call again throws a
    Conflict and changes nothing, neither the counter nor the list (which
    hold one more registration than before the first call): "Event is full"
    when the first registration filled the event, "User already registered
    for this event" otherwise. *)
Theorem registerUser_again clock1 io1 clock2 io2 eventId userId s s1 :
  registerUser clock1 io1 eventId userId s = (s1, Ok true) →
  ∃ k e e1 message,
    target eventId s = Some (k, e)
    ∧ target eventId s1 = Some (k, e1)
    ∧ registrations e1 = registrations e + 1
    ∧ registeredUsers e1 = registeredUsers e ++ [userId]
    ∧ message = (if ge_val (registrations e1) (capacity e1) then "Event is full"
                 else "User already registered for this event")
    ∧ registerUser clock2 io2 eventId userId s1 = (s1, Throw (Error message))
    ∧ classify (Error message) = Conflict.
Proof.
  rewrite registerUser_run.
  destruct (target eventId s) as [[k e]|] eqn:Ht; [|done].
  destruct (ge_val _ _) eqn:Hfull; [done|].
  destruct (Array_includes _ _) eqn:Hin; [done|].
  cbv zeta. intros Hc.
  assert (Ht1 : target eventId s1 = Some (k,
            rewritten e (registeredUsers e ++ [userId]) (registrations e + 1)
              (toISOString (clock1 0%nat)))).
  { replace s1 with (commit io1 (set_events (<[k:=rewritten e (registeredUsers e ++ [userId]) (registrations e + 1) (toISOString (clock1 0%nat))]> (events s)) s) true).1
      by (by rewrite Hc).
    rewrite target_commit. eapply target_rewrite; [exact Ht | by apply target_id in Ht]. }
  eexists k, e, _, _. split; [done|]. split; [exact Ht1|].
  split; [done|]. split; [done|]. split; [done|].
  rewrite registerUser_run, Ht1. simpl.
  destruct (ge_val (registrations e + 1) (capacity e)); [done|].
  by rewrite Array_includes_push.
Qed.

(** C3, as amended: a call for a user who is not in the list of the event
    throws; a call for a user who is in it removes every occurrence of the
    user from the list and sets the counter to [max(0, counter - 1)], which is
    one less when the counter was positive, and is never negative; a call
    never turns a counter that was not negative into a negative one. *)
Theorem unregisterUser_effect clock io eventId userId s k e :
  target eventId s = Some (k, e) →
  (userId ∉ registeredUsers e →
     unregisterUser clock io eventId userId s =
       (s, Throw (Error "User not registered for this event")))
  ∧ (userId ∈ registeredUsers e →
     ∃ e', target eventId (unregisterUser clock io eventId userId s).1 = Some (k, e')
       ∧ registeredUsers e' = filter (λ u, u ≠ userId) (registeredUsers e)
       ∧ (userId ∉ registeredUsers e')
       ∧ registrations e' = Z.max 0 (registrations e - 1)
       ∧ (0 < registrations e → registrations e' = registrations e - 1)
       ∧ 0 ≤ registrations e')
  ∧ (0 ≤ registrations e →
     ∃ e', target eventId (unregisterUser clock io eventId userId s).1 = Some (k, e')
       ∧ 0 ≤ registrations e').
Proof.
  intros Ht. rewrite unregisterUser_run, Ht.
  destruct (Array_includes (registeredUsers e) userId) eqn:Hin; simpl.
  - apply Array_includes_spec in Hin.
    assert (Ht' : target eventId
              (commit io (set_events (<[k:=rewritten e
                 (List.filter (λ id, negb (id =? userId)) (registeredUsers e))
                 (Z.max 0 (registrations e - 1)) (toISOString (clock 0%nat))]> (events s)) s) true).1
            = Some (k, rewritten e
                 (List.filter (λ id, negb (id =? userId)) (registeredUsers e))
                 (Z.max 0 (registrations e - 1)) (toISOString (clock 0%nat)))).
    { rewrite target_commit. eapply target_rewrite; [exact Ht | by apply target_id in Ht]. }
    split; [done|]. split.
    + intros _. eexists. split; [exact Ht'|]. simpl. rewrite filter_others.
      split; [done|]. split; [|lia].
      rewrite list_elem_of_filter. by intros [? _].
    + intros _. eexists. split; [exact Ht'|]. simpl. lia.
  - split; [done|]. split.
    + intros Hx. apply Array_includes_spec in Hx. congruence.
    + intros ?. by exists e.
Qed.

(** C10: when [registerUser], [unregisterUser], [update] or [delete] throws a
    NotFound or a Conflict, the instance (the collection in memory, the next
    id, and the file) is what it was before the call. *)
Theorem failures_are_atomic clock io eventId userId updateData s :
  (∀ s' e, registerUser clock io eventId userId s = (s', Throw e) →
           classify e = NotFound ∨ classify e = Conflict → s' = s)
  ∧ (∀ s' e, unregisterUser clock io eventId userId s = (s', Throw e) →
             classify e = NotFound ∨ classify e = Conflict → s' = s)
  ∧ (∀ s' e, update clock io eventId updateData s = (s', Throw e) →
             classify e = NotFound ∨ classify e = Conflict → s' = s)
  ∧ (∀ s' e, delete io eventId s = (s', Throw e) →
             classify e = NotFound ∨ classify e = Conflict → s' = s).
Proof.
  rewrite registerUser_run, unregisterUser_run, update_run, delete_run.
  unfold commit. repeat split; intros s' e;
    destruct (target eventId s) as [[k ev]|];
    repeat match goal with |- context [if ?b then _ else _] => destruct b end;
    cbv zeta; intros [= <- <-]; simpl; intros [?|?]; done.
Qed.

End Registration.

(** ** The samples are states the store reaches *)

Section Reachable.

Import Event EventSpec Samples.
Local Open Scope Z_scope.

Lemma one_seat_created :
  create clk true (request "1" None) (constructor None) =
  (one_seat, Ok (jazz (Num 1) 0 [] "2026-11-02T12:34:56.790Z")).
Proof. vm_compute. reflexivity. Qed.

Lemma uncounted_created :
  (create clk true (request "10" (Some [7])) (constructor None)).1 = uncounted.
Proof. vm_compute. reflexivity. Qed.

Lemma unbounded_created :
  (create clk true (request "abc" None) (constructor None)).1 = unbounded.
Proof. vm_compute. reflexivity. Qed.

Lemma sold_out_registered :
  registerUser clk true 1 7 one_seat = (sold_out, Ok true).
Proof. vm_compute. reflexivity. Qed.

End Reachable.

Section RegistrationInstances.

Import Event EventSpec Samples.
Local Open Scope Z_scope.

Lemma registerUser_full_and_consistent_witness :
  registerUser clk true 1 8 sold_out = (sold_out, Throw (Error "Event is full"))
  ∧ ∃ e', target 1 (registerUser clk true 1 8 sold_out).1 = Some (0%nat, e')
          ∧ registrations e' = Z.of_nat (length (registeredUsers e')).
Proof.
  destruct (registerUser_full_and_consistent clk true 1 8 sold_out 0
              (jazz (Num 1) 1 [7] "2026-11-02T12:34:56.789Z") eq_refl)
    as [Hfull Hinv].
  split.
  - apply Hfull. reflexivity.
  - apply Hinv. reflexivity.
Defined.

(** C2 as stated fails: with one seat, the first call returns and the second
    throws "Event is full", not "User already registered for this event". *)
Lemma registerUser_again_full :
  registerUser clk true 1 7 one_seat = (sold_out, Ok true)
  ∧ registerUser clk true 1 7 sold_out = (sold_out, Throw (Error "Event is full"))
  ∧ (registerUser clk true 1 7 sold_out).2
    ≠ Throw (Error "User already registered for this event").
Proof. split; [|split]; vm_compute; [reflexivity | reflexivity | discriminate]. Qed.

Lemma registerUser_again_witness :
  ∃ k e e1 message,
    target 1 one_seat = Some (k, e)
    ∧ target 1 sold_out = Some (k, e1)
    ∧ registrations e1 = registrations e + 1
    ∧ registeredUsers e1 = registeredUsers e ++ [7]
    ∧ message = (if ge_val (registrations e1) (capacity e1) then "Event is full"
                 else "User already registered for this event")
    ∧ registerUser clk false 1 7 sold_out = (sold_out, Throw (Error message))
    ∧ classify (Error message) = Conflict.
Proof.
  apply (registerUser_again clk true clk false 1 7 one_seat sold_out).
  vm_compute. reflexivity.
Defined.

(** C3 as stated fails: user 7 is in the list and the counter is 0; the call
    returns, and the counter is still 0, not one less. *)
Lemma unregisterUser_clamped :
  target 1 uncounted = Some (0%nat, jazz (Num 10) 0 [7] "2026-11-02T12:34:56.790Z")
  ∧ unregisterUser clk true 1 7 uncounted = (emptied, Ok true)
  ∧ target 1 emptied = Some (0%nat, jazz (Num 10) 0 [] "2026-11-02T12:34:56.789Z")
  ∧ registrations (jazz (Num 10) 0 [] "2026-11-02T12:34:56.789Z")
    ≠ registrations (jazz (Num 10) 0 [7] "2026-11-02T12:34:56.790Z") - 1.
Proof. repeat split; vm_compute; try reflexivity. discriminate. Qed.

Lemma unregisterUser_effect_witness :
  unregisterUser clk true 1 8 sold_out =
    (sold_out, Throw (Error "User not registered for this event"))
  ∧ (∃ e', target 1 (unregisterUser clk true 1 7 sold_out).1 = Some (0%nat, e')
       ∧ registeredUsers e' = filter (λ u, u ≠ 7) [7]
       ∧ (7 ∉ registeredUsers e')
       ∧ registrations e' = Z.max 0 (1 - 1)
       ∧ (0 < 1 → registrations e' = 1 - 1)
       ∧ 0 ≤ registrations e').
Proof.
  split.
  - apply (unregisterUser_effect clk true 1 8 sold_out 0
             (jazz (Num 1) 1 [7] "2026-11-02T12:34:56.789Z") eq_refl).
    simpl. intros Hin. apply list_elem_of_singleton in Hin. lia.
  - apply (unregisterUser_effect clk true 1 7 sold_out 0
             (jazz (Num 1) 1 [7] "2026-11-02T12:34:56.789Z") eq_refl).
    simpl. apply list_elem_of_singleton. reflexivity.
Defined.

Lemma failures_are_atomic_witness :
  (registerUser clk true 1 8 sold_out).1 = sold_out
  ∧ (unregisterUser clk true 1 8 sold_out).1 = sold_out
  ∧ (update clk true 2 Patch.empty sold_out).1 = sold_out
  ∧ (delete true 2 sold_out).1 = sold_out.
Proof.
  destruct (failures_are_atomic clk true 1 8 Patch.empty sold_out)
    as (Hreg & Hunreg & _).
  destruct (failures_are_atomic clk true 2 8 Patch.empty sold_out)
    as (_ & _ & Hupd & Hdel).
  split; [|split; [|split]].
  - apply (Hreg _ (Error "Event is full")); [vm_compute; reflexivity | right; reflexivity].
  - apply (Hunreg _ (Error "User not registered for this event"));
      [vm_compute; reflexivity | right; reflexivity].
  - apply (Hupd _ (Error "Event not found")); [vm_compute; reflexivity | left; reflexivity].
  - apply (Hdel _ (Error "Event not found")); [vm_compute; reflexivity | left; reflexivity].
Defined.

End RegistrationInstances.

(** ** Id assignment and the backing file of the event store *)

Section EventLifeFacts.

Import Event EventSpec EventLife.
Local Open Scope Z_scope.

Lemma create_run clock io eventData s :
  create clock io eventData s =
  commit io (set_events (events s ++ [fresh (nextId s) clock eventData])
               (set_nextId (nextId s + 1) s))
         (fresh (nextId s) clock eventData).
Proof.
  unfold create. rewrite logged_run. unfold bind at 1, get.
  unfold bind at 1, modify. unfold bind at 1. unfold bind at 1.
  rewrite saveEvents_run. unfold commit. by destruct io.
Qed.









End EventLifeFacts.

(** ** The user store, operation by operation *)

Section UserRuns.

Import User UserSpec.
Local Open Scope Z_scope.

Lemma user_findById_run i s : findById i s = (s, Ok (findIndex i (users s))).
Proof. unfold findById. by rewrite logged_run. Qed.

Lemma saveUsers_run io s : saveUsers io s = commit io s tt.
Proof. unfold saveUsers, commit. rewrite logged_run. by destruct io. Qed.

Lemma user_deref_run ref s u : users s !! ref = Some u → deref ref s = (s, Ok u).
Proof. unfold deref, bind, get, ret. simpl. by intros ->. Qed.

Lemma user_assign_run ref f s u :
  users s !! ref = Some u →
  assign ref f s = (set_users (<[ref:=f u]> (users s)) s, Ok tt).
Proof. intros Hu. unfold assign, bind. by rewrite (user_deref_run _ _ _ Hu). Qed.

Lemma user_update_run clock io i updateData s :
  update clock io i updateData s =
  match target i s with
  | None => (s, Throw (Error "User not found"))
  | Some (k, u) =>
      let u' := merge u updateData (toISOString (clock 0%nat)) in
      commit io (set_users (<[k:=u']> (users s)) s) (withoutPassword u')
  end.
Proof.
  unfold update, target, findIndex. rewrite logged_run. unfold bind at 1, get.
  destruct (list_find _ _) as [[k u]|] eqn:Hf; simpl; [|done].
  apply list_find_slot in Hf as [Hk Hlt].
  unfold bind at 1. rewrite (user_deref_run _ _ _ Hk).
  unfold bind at 1, modify. unfold bind at 1. rewrite saveUsers_run.
  unfold commit. destruct io; simpl; [|done].
  unfold bind. erewrite user_deref_run; [done|]. simpl.
  by rewrite list_lookup_insert_eq.
Qed.

Lemma addRegisteredEvent_run clock io userId eventId s :
  addRegisteredEvent clock io userId eventId s =
  match target userId s with
  | None => (s, Throw (Error "User not found"))
  | Some (k, u) =>
      if Array_includes (registeredEvents u) eventId then (s, Ok true)
      else
        let u' := rewritten u (registeredEvents u ++ [eventId])
                    (toISOString (clock 0%nat)) in
        commit io (set_users (<[k:=u']> (users s)) s) true
  end.
Proof.
  unfold addRegisteredEvent. rewrite logged_run.
  unfold bind at 1. rewrite user_findById_run. unfold findIndex, target.
  destruct (list_find _ _) as [[k u]|] eqn:Hf; simpl; [|done].
  pose proof Hf as [Hk Hlt]%list_find_slot.
  unfold bind at 1. rewrite (user_deref_run _ _ _ Hk).
  destruct (Array_includes _ _); [done|]. simpl.
  unfold bind at 1. unfold bind at 1. rewrite (user_assign_run _ _ _ _ Hk).
  unfold bind at 1. erewrite user_deref_run
    by (simpl; by apply list_lookup_insert_eq).
  unfold bind at 1. rewrite user_update_run. unfold target. simpl.
  erewrite list_find_overwrite; [| exact Hf | by apply list_find_Some in Hf as (_ & ? & _)].
  rewrite list_insert_insert_eq.
  unfold commit. by destruct io.
Qed.

Lemma user_commit_users {V} io s (v : V) : users (commit io s v).1 = users s.
Proof. unfold commit. by destruct io. Qed.


Lemma user_create_run clock io userData s :
  create clock io userData s =
  commit io (set_users (users s ++ [fresh (nextId s) clock userData])
               (set_nextId (nextId s + 1) s))
         (withoutPassword (fresh (nextId s) clock userData)).
Proof.
  unfold create. rewrite logged_run. unfold bind at 1, get.
  unfold bind at 1, modify. unfold bind at 1. unfold bind at 1.
  rewrite saveUsers_run. unfold commit. by destruct io.
Qed.





End UserRuns.

(** ** Ids over the life of a store, and across a restart *)

Section LifeClaims.

Local Open Scope Z_scope.




End LifeClaims.

Section LifeInstances.

Import Event EventSpec EventLife Samples.
Local Open Scope Z_scope.




End LifeInstances.

(** ** Sorting with a comparator *)

Section SortFacts.

Context {A : Type} (comparefn : A → A → jsval Z).

Lemma sink_perm (x : A) (before : list A) :
  sink comparefn x before ≡ₚ x :: before.
Proof.
  induction before as [|y before IH]; simpl; [done|].
  destruct (below comparefn x y); [|done].
  rewrite IH. apply perm_swap.
Qed.

Lemma fold_sink_perm (l before : list A) :
  fold_left (λ before x, sink comparefn x before) l before ≡ₚ l ++ before.
Proof.
  revert before. induction l as [|x l IH]; intros before; simpl; [done|].
  rewrite IH, sink_perm. by rewrite Permutation_middle.
Qed.

(** The result holds the elements of the array, whatever the comparator. *)
Lemma sort_perm (l : list A) : sort comparefn l ≡ₚ l.
Proof.
  unfold sort. rewrite <- Permutation_rev, fold_sink_perm. by rewrite app_nil_r.
Qed.

(** The comparator orders by an integer key. *)
Context (key : A → Z).

Lemma sink_sorted (x : A) (before : list A) :
  (∀ y, y ∈ before → below comparefn x y = (key x <? key y)%Z) →
  StronglySorted (descending key) before →
  StronglySorted (descending key) (sink comparefn x before).
Proof.
  induction before as [|y before IH]; intros Hcmp Hs; simpl.
  { repeat constructor. }
  apply StronglySorted_inv in Hs as [Hs Hy].
  rewrite Hcmp by left. destruct (Z.ltb_spec (key x) (key y)).
  - constructor.
    + apply IH; [|done]. intros z Hz. apply Hcmp. by right.
    + rewrite sink_perm. constructor; [unfold descending; lia | done].
  - constructor; [by constructor|].
    constructor; [done|].
    eapply Forall_impl; [exact Hy|]. unfold descending. simpl. lia.
Qed.

Lemma fold_sink_sorted (l before : list A) :
  (∀ a b, a ∈ l ++ before → b ∈ l ++ before →
          below comparefn a b = (key a <? key b)%Z) →
  StronglySorted (descending key) before →
  StronglySorted (descending key)
    (fold_left (λ before x, sink comparefn x before) l before).
Proof.
  revert before. induction l as [|x l IH]; intros before Hcmp Hs; simpl; [done|].
  apply IH.
  - intros a b Ha Hb. apply Hcmp.
    + rewrite sink_perm in Ha. by rewrite <- Permutation_middle in Ha.
    + rewrite sink_perm in Hb. by rewrite <- Permutation_middle in Hb.
  - apply sink_sorted; [|done]. intros y Hy. apply Hcmp.
    + left.
    + right. apply elem_of_app. by right.
Qed.

Lemma StronglySorted_rev (R : A → A → Prop) (l : list A) :
  StronglySorted R l → StronglySorted (flip R) (rev l).
Proof.
  induction 1 as [|a l Hs IH Ha]; simpl; [constructor|].
  apply StronglySorted_app. split; [|split; [done | repeat constructor]].
  intros x1 x2 Hx1 Hx2. apply list_elem_of_singleton in Hx2 as ->.
  rewrite <- Permutation_rev in Hx1. unfold flip.
  by eapply Forall_forall in Ha.
Qed.

(** With such a comparator the result is in ascending order of the key. *)
Lemma sort_sorted (l : list A) :
  (∀ a b, a ∈ l → b ∈ l → below comparefn a b = (key a <? key b)%Z) →
  StronglySorted (λ a b, (key a ≤ key b)%Z) (sort comparefn l).
Proof.
  intros Hcmp. unfold sort.
  apply (StronglySorted_rev (descending key)), fold_sink_sorted; [|constructor].
  intros a b. rewrite app_nil_r. apply Hcmp.
Qed.

Lemma StronglySorted_within (R R' : A → A → Prop) (P : A → Prop) (l : list A) :
  (∀ a b, P a → P b → R a b → R' a b) →
  Forall P l → StronglySorted R l → StronglySorted R' l.
Proof.
  intros Himp Hall Hs. induction Hs as [|a l Hs IH Ha]; [constructor|].
  apply Forall_cons in Hall as [Hp Hall].
  constructor; [by apply IH|].
  apply Forall_forall. intros b Hb.
  apply Himp; [done | by eapply Forall_forall in Hall | by eapply Forall_forall in Ha].
Qed.

End SortFacts.

(** ** [findAll] *)

Section FindAll.

Import Event EventSpec EventQueries.
Local Open Scope Z_scope.

Variable LocalTZA : Z → Z.

Lemma dated_instant e : dated LocalTZA e → start LocalTZA e = Num (instant LocalTZA e).
Proof. intros [t Ht]. unfold instant. by rewrite Ht. Qed.

(** On dated events the comparator of [findAll] orders by the start. *)
Lemma by_start_below a b :
  dated LocalTZA a → dated LocalTZA b →
  below (λ a b, minus (start LocalTZA a) (start LocalTZA b)) a b
  = (instant LocalTZA a <? instant LocalTZA b).
Proof.
  intros Ha%dated_instant Hb%dated_instant. unfold below. rewrite Ha, Hb. simpl.
  destruct (Z.ltb_spec (instant LocalTZA a - instant LocalTZA b) 0),
           (Z.ltb_spec (instant LocalTZA a) (instant LocalTZA b)); lia.
Qed.

Lemma start_2020 e :
  date e = "2020-01-01" → time e = "10:00" →
  start LocalTZA e = Num (local_2020 - LocalTZA local_2020).
Proof. unfold start. intros -> ->. reflexivity. Qed.

Lemma start_2099 e :
  date e = "2099-01-01" → time e = "10:00" →
  start LocalTZA e = Num (local_2099 - LocalTZA local_2099).
Proof. unfold start. intros -> ->. reflexivity. Qed.

Lemma event_imap (f : nat → record → bool) (l : list record) :
  event <$> imap (λ n e, {| event := e; isUpcoming := f n e |}) l = l.
Proof.
  apply list_eq. intros n. rewrite list_lookup_fmap, list_lookup_imap.
  by destruct (l !! n).
Qed.

(** C6, as amended: [findAll] returns the events of the collection, each
    once, and leaves the collection in the order it returns; when every event
    has a date and time the engine can read, that order is ascending in the
    start; each returned event carries [isUpcoming], true exactly when the
    clock reading taken for it is strictly before its start; and for the two
    events of 2099-01-01 10:00 and 2020-01-01 10:00, when both clock readings
    are at or after the start of the second and before the start of the first,
    the event of 2020 comes first with [isUpcoming] false and the event of
    2099 has it true. *)
Theorem findAll_sorted_and_flagged clock s :
  ∃ vs,
    findAll LocalTZA clock s = (set_events (event <$> vs) s, Ok vs)
    ∧ event <$> vs ≡ₚ events s
    ∧ (Forall (dated LocalTZA) (events s) →
       StronglySorted (le_start LocalTZA) (event <$> vs))
    ∧ (∀ n v, vs !! n = Some v →
         isUpcoming v = true ↔
         ∃ t, start LocalTZA (event v) = Num t ∧ clock n < t)
    ∧ (∀ a b,
         events s = [a; b] →
         date a = "2099-01-01" → time a = "10:00" →
         date b = "2020-01-01" → time b = "10:00" →
         (∀ n, (n < 2)%nat →
               local_2020 - LocalTZA local_2020 ≤ clock n
               ∧ clock n < local_2099 - LocalTZA local_2099) →
         vs = [ {| event := b; isUpcoming := false |};
                {| event := a; isUpcoming := true |} ]).
Proof.
  set (by_start := λ a b, minus (start LocalTZA a) (start LocalTZA b)).
  exists (imap (λ n e, {| event := e;
                          isUpcoming := gt (start LocalTZA e) (Num (clock n)) |})
               (sort by_start (events s))).
  rewrite event_imap. split; [done|]. split; [apply sort_perm|].
  split; [|split].
  - intros Hall.
    assert (Hall' : Forall (dated LocalTZA) (sort by_start (events s)))
      by (by rewrite sort_perm).
    eapply StronglySorted_within; [|exact Hall'|].
    2: { apply (sort_sorted by_start (instant LocalTZA)).
         intros a b Ha Hb. apply by_start_below; by eapply Forall_forall in Hall. }
    intros a b Ha%dated_instant Hb%dated_instant Hle. by eexists _, _.
  - intros n v [e [_ ->]]%list_lookup_imap_Some. simpl.
    destruct (start LocalTZA e) as [t| | |]; simpl.
    + rewrite Z.ltb_lt. split; [by eexists | by intros (? & [= <-] & ?)].
    + split; [done | by intros (? & ? & _)].
    + split; [done | by intros (? & ? & _)].
    + split; [done | by intros (? & ? & _)].
  - intros a b -> Hda Hta Hdb Htb Hclock.
    destruct (Hclock 0%nat) as [H0 H0']; [lia|].
    destruct (Hclock 1%nat) as [_ H1]; [lia|].
    unfold sort. simpl. unfold below, by_start.
    rewrite (start_2020 b Hdb Htb), (start_2099 a Hda Hta). simpl.
    destruct (Z.ltb_spec (local_2020 - LocalTZA local_2020
                          - (local_2099 - LocalTZA local_2099)) 0); [|lia].
    simpl. rewrite (start_2020 b Hdb Htb), (start_2099 a Hda Hta). simpl.
    repeat f_equal.
    + apply Z.ltb_ge. lia.
    + apply Z.ltb_lt. lia.
Qed.

End FindAll.

Section FindAllInstances.

Import Event EventSpec EventQueries Samples Listings.
Local Open Scope Z_scope.

(** C6 as stated fails.  An event whose date is "TBD" has no start: it
    compares neither below nor above any other, the events of 2099 and 2020
    stay on either side of it, and the result is not in ascending order.
    And read in 2100, the event of 2099 is not upcoming. *)
Lemma findAll_undated :
  findAll utc clk (listing [in_2099; undated; in_2020]) =
    (listing [in_2099; undated; in_2020],
     Ok [ {| event := in_2099; isUpcoming := true |};
          {| event := undated; isUpcoming := false |};
          {| event := in_2020; isUpcoming := false |} ])
  ∧ ¬ StronglySorted (le_start utc) [in_2099; undated; in_2020]
  ∧ findAll utc clk_2100 (listing [in_2099; in_2020]) =
      (listing [in_2020; in_2099],
       Ok [ {| event := in_2020; isUpcoming := false |};
            {| event := in_2099; isUpcoming := false |} ]).
Proof.
  split; [vm_compute; reflexivity|]. split; [|vm_compute; reflexivity].
  intros [_ Hfirst]%StronglySorted_inv.
  apply Forall_cons in Hfirst as [(x & y & _ & Hy & _) _].
  vm_compute in Hy. discriminate.
Qed.

Lemma findAll_sorted_and_flagged_witness :
  ∃ vs,
    findAll utc clk (listing [in_2099; in_2020]) =
      (set_events (event <$> vs) (listing [in_2099; in_2020]), Ok vs)
    ∧ StronglySorted (le_start utc) (event <$> vs)
    ∧ vs = [ {| event := in_2020; isUpcoming := false |};
             {| event := in_2099; isUpcoming := true |} ].
Proof.
  destruct (findAll_sorted_and_flagged utc clk (listing [in_2099; in_2020]))
    as (vs & Hrun & _ & Hsorted & _ & Htwo).
  exists vs. split; [exact Hrun|]. split.
  - apply Hsorted. repeat constructor; eexists; vm_compute; reflexivity.
  - apply (Htwo in_2099 in_2020); try reflexivity.
    intros n Hn. unfold clk, utc, local_2020, local_2099. lia.
Defined.

End FindAllInstances.

(** ** [search] *)

Section SearchFacts.

Import Event EventSpec EventQueries.

Lemma append_cons (a : ascii) (s t : string) :
  String a s +:+ t = String a (s +:+ t).
Proof. reflexivity. Qed.

Lemma append_empty (t : string) : "" +:+ t = t.
Proof. reflexivity. Qed.

Lemma startsWith_spec (s t : string) :
  startsWith s t = true ↔ ∃ post, s = t +:+ post.
Proof.
  revert s. induction t as [|b t IH]; intros s; simpl.
  { split; [by exists s | done]. }
  destruct s as [|a s]; simpl.
  { split; [done | by intros [? ?]]. }
  setoid_rewrite append_cons.
  destruct (Ascii.eqb_spec a b) as [->|Hne].
  - rewrite IH. split; intros [post Hpost]; exists post; congruence.
  - split; [done | intros [? ?]; congruence].
Qed.

Lemma includes_spec (s t : string) : includes s t = true ↔ occurs t s.
Proof.
  unfold occurs. induction s as [|a s IH].
  - simpl. rewrite orb_false_r, startsWith_spec. split.
    + intros [post ->]. by exists "", post.
    + intros ([|? ?] & post & Hs); [by exists post | done].
  - change (includes (String a s) t)
      with (startsWith (String a s) t || includes s t).
    rewrite orb_true_iff, startsWith_spec, IH. split.
    + intros [[post ->]|(pre & post & ->)]; [by exists "", post|].
      by exists (String a pre), post.
    + intros ([|c pre] & post & Hs); [left; by exists post|].
      right. exists pre, post. rewrite append_cons in Hs. congruence.
Qed.

Lemma toLowerCase_app (s t : string) :
  toLowerCase (s +:+ t) = toLowerCase s +:+ toLowerCase t.
Proof.
  induction s as [|a s IH]; [done|].
  rewrite append_cons. simpl. by rewrite IH, append_cons.
Qed.

Lemma occurs_lower (t s pre post : string) :
  s = pre +:+ t +:+ post → occurs (toLowerCase t) (toLowerCase s).
Proof. intros ->. rewrite !toLowerCase_app. by eexists _, _. Qed.

(** The test [search] applies to an event decides [Matches]. *)
Lemma search_test (query : string) (e : record) :
  includes (toLowerCase (title e)) (toLowerCase query)
  || includes (toLowerCase (description e)) (toLowerCase query)
  || includes (toLowerCase (location e)) (toLowerCase query)
  || includes (toLowerCase (category e)) (toLowerCase query) = true
  ↔ Matches query e.
Proof. unfold Matches. rewrite !orb_true_iff, !includes_spec. tauto. Qed.

(** C7: [search] returns, in the order of the collection, exactly the events
    for which the lowercased term occurs in the lowercased title,
    description, location or category, and changes nothing; [search("music")]
    returns every event whose description contains "Music Festival". *)
Theorem search_matches :
  (∀ query s,
     ∃ found,
       search query s = (s, Ok found)
       ∧ (∀ e, e ∈ found ↔ e ∈ events s ∧ Matches query e)
       ∧ (∀ keep : record → bool,
            (∀ e, keep e = true ↔ Matches query e) →
            found = List.filter keep (events s)))
  ∧ (∀ s e pre post,
       e ∈ events s →
       description e = pre +:+ "Music Festival" +:+ post →
       ∃ found, search "music" s = (s, Ok found) ∧ e ∈ found).
Proof.
  split.
  - intros query s. eexists. split; [reflexivity|]. split.
    + intros e. rewrite list_elem_of_In, filter_In, <- list_elem_of_In.
      by rewrite search_test.
    + intros keep Hkeep. apply List.filter_ext. intros e.
      apply eq_true_iff_eq. by rewrite search_test, Hkeep.
  - intros s e pre post He Hd. eexists. split; [reflexivity|].
    rewrite list_elem_of_In, filter_In, <- list_elem_of_In. split; [done|].
    apply (search_test "music"). right; left.
    change (toLowerCase "music") with (toLowerCase "Music").
    eapply (occurs_lower "Music" _ pre (" Festival" +:+ post)).
    rewrite Hd. f_equal.
Qed.

End SearchFacts.

Section SearchInstances.

Import Event EventSpec EventQueries Samples.
Local Open Scope Z_scope.

Lemma search_matches_witness :
  ∃ found, search "music" one_seat = (one_seat, Ok found)
           ∧ jazz (Num 1) 0 [] "2026-11-02T12:34:56.790Z" ∈ found.
Proof.
  apply (proj2 search_matches one_seat _ "A " "").
  - left.
  - reflexivity.
Defined.

End SearchInstances.

(** ** The user store: passwords and registered events *)

Section Users.

Import User UserSpec.
Local Open Scope Z_scope.

(** C8: [validatePassword] always returns, and changes nothing: it returns
    false when there is no user with the id, false when the comparison
    rejects, and otherwise what the comparison of the text with the stored
    hash answers. *)
Theorem validatePassword_returns
    (bcrypt_compare : string → string → result bool) userId plaintext s :
  ∃ answer,
    validatePassword bcrypt_compare userId plaintext s = (s, Ok answer)
    ∧ (target userId s = None → answer = false)
    ∧ (∀ k u, target userId s = Some (k, u) →
         (∀ e, bcrypt_compare plaintext (password u) = Throw e → answer = false)
         ∧ (∀ b, bcrypt_compare plaintext (password u) = Ok b → answer = b)).
Proof.
  unfold validatePassword, try_catch, findById, findIndex, bind at 1, get, ret.
  simpl. unfold target.
  destruct (list_find _ _) as [[k u]|] eqn:Hf; simpl.
  - pose proof Hf as [Hk _]%list_find_slot.
    unfold bind, deref, bind, get, await. simpl. rewrite Hk. simpl.
    destruct (bcrypt_compare plaintext (password u)) as [b|e] eqn:Hc.
    + exists b. split; [done|]. split; [done|].
      intros ? ? [= <- <-]. rewrite Hc. split; congruence.
    + exists false. split; [done|]. split; [done|].
      intros ? ? [= <- <-]. rewrite Hc. split; congruence.
  - exists false. by repeat split.
Qed.

Lemma user_target_rewrite userId s k u u' :
  target userId s = Some (k, u) → id u' = userId →
  target userId (set_users (<[k:=u']> (users s)) s) = Some (k, u').
Proof. unfold target. simpl. intros. by eapply list_find_overwrite. Qed.

Lemma user_target_commit {V} userId io s (v : V) :
  target userId (commit io s v).1 = target userId s.
Proof. unfold target. by rewrite user_commit_users. Qed.

(** C9: for an existing user, [addRegisteredEvent] with an event id that is
    already in the list of the user returns true and changes nothing; and
    after one call, whatever its outcome, a second call with the same
    arguments returns true and leaves the state the first call left. *)
Theorem addRegisteredEvent_idempotent clock io clock' io' userId eventId s k u :
  target userId s = Some (k, u) →
  (eventId ∈ registeredEvents u →
     addRegisteredEvent clock io userId eventId s = (s, Ok true))
  ∧ addRegisteredEvent clock' io' userId eventId
      (addRegisteredEvent clock io userId eventId s).1
    = ((addRegisteredEvent clock io userId eventId s).1, Ok true).
Proof.
  intros Ht. split.
  - intros Hin%Array_includes_spec. by rewrite addRegisteredEvent_run, Ht, Hin.
  - rewrite (addRegisteredEvent_run clock), Ht.
    destruct (Array_includes (registeredEvents u) eventId) eqn:Hin; simpl.
    + by rewrite addRegisteredEvent_run, Ht, Hin.
    + rewrite addRegisteredEvent_run, user_target_commit.
      erewrite user_target_rewrite;
        [| exact Ht | by apply list_find_Some in Ht as (_ & ? & _)].
      simpl. by rewrite Array_includes_push.
Qed.

End Users.

Section UsersInstances.

Import User UserSpec Members.
Local Open Scope Z_scope.

Lemma validatePassword_returns_witness :
  validatePassword compare 9 "secret" members = (members, Ok false)
  ∧ validatePassword compare 1 "secret" members = (members, Ok true)
  ∧ validatePassword compare 1 "guess" members = (members, Ok false).
Proof.
  destruct (validatePassword_returns compare 9 "secret" members)
    as (a1 & H1 & Habsent & _).
  destruct (validatePassword_returns compare 1 "secret" members)
    as (a2 & H2 & _ & Hfound).
  destruct (validatePassword_returns compare 1 "guess" members)
    as (a3 & H3 & _ & Hwrong).
  rewrite H1, H2, H3.
  rewrite (Habsent eq_refl).
  rewrite (proj2 (Hfound 0%nat ann eq_refl) true eq_refl).
  rewrite (proj2 (Hwrong 0%nat ann eq_refl) false eq_refl).
  done.
Defined.

Lemma addRegisteredEvent_idempotent_witness :
  addRegisteredEvent Samples.clk true 1 3 members = (members, Ok true)
  ∧ addRegisteredEvent Samples.clk true 1 4 (addRegisteredEvent Samples.clk false 1 4 members).1
    = ((addRegisteredEvent Samples.clk false 1 4 members).1, Ok true).
Proof.
  split.
  - apply (proj1 (addRegisteredEvent_idempotent Samples.clk true Samples.clk true
                    1 3 members 0 ann eq_refl)).
    simpl. left.
  - apply (proj2 (addRegisteredEvent_idempotent Samples.clk false Samples.clk true
                    1 4 members 0 ann eq_refl)).
Defined.

End UsersInstances.

(** * Further properties *)

(** ** Queries of the event store *)

Section EventQueryFacts.

Import Event EventSpec EventQueries EventMore.
Local Open Scope Z_scope.

Lemma slice_take {A : Type} (limit : Z) (l : list A) :
  0 ≤ limit → slice 0 limit l = take (Z.to_nat limit) l.
Proof.
  intros Hl. unfold slice. simpl.
  destruct (Z.ltb_spec limit 0); [lia|].
  rewrite (Z.min_l 0) by lia. simpl. rewrite Z.sub_0_r.
  destruct (Z.le_gt_cases limit (Z.of_nat (length l))).
  - by replace (Z.max (Z.min limit (Z.of_nat (length l))) 0) with limit by lia.
  - replace (Z.max (Z.min limit (Z.of_nat (length l))) 0)
      with (Z.of_nat (length l)) by lia.
    rewrite Nat2Z.id. change (drop (Z.to_nat 0) l) with l.
    rewrite (take_ge l (length l)) by lia. by rewrite take_ge by lia.
Qed.

Lemma occurs_self (t : string) : occurs t t.
Proof.
  exists "", "". rewrite append_empty.
  induction t as [|a t IH]; [done|]. rewrite append_cons. by f_equal.
Qed.

(** X1: [findByCategory] returns, without changing the store, the events
    whose category is the given one up to letter case; each of them is also
    returned by [search] for the same text. *)
Theorem findByCategory_matches categoryName s :
  ∃ found,
    findByCategory categoryName s = (s, Ok found)
    ∧ (∀ e, e ∈ found ↔
            e ∈ events s ∧ toLowerCase (category e) = toLowerCase categoryName)
    ∧ (∃ searched, search categoryName s = (s, Ok searched)
                   ∧ ∀ e, e ∈ found → e ∈ searched).
Proof.
  eexists. split; [unfold findByCategory; by rewrite logged_run|]. split.
  - intros e. rewrite list_elem_of_In, filter_In, <- list_elem_of_In.
    by rewrite String.eqb_eq.
  - eexists. split; [unfold search; by rewrite logged_run|].
    intros e. rewrite !list_elem_of_In, !filter_In, String.eqb_eq.
    intros [He Hc]. split; [done|].
    apply search_test. do 3 right. rewrite Hc. apply occurs_self.
Qed.

Lemma gt_upcoming (LocalTZA : Z → Z) (now : Z) (e : record) :
  gt (start LocalTZA e) (Num now) = true ↔ upcoming LocalTZA now e.
Proof.
  unfold upcoming. destruct (start LocalTZA e) as [t| | |]; simpl.
  - rewrite Z.ltb_lt. split; [by eexists | by intros (? & [= <-] & ?)].
  - split; [done | by intros (? & ? & _)].
  - split; [done | by intros (? & ? & _)].
  - split; [done | by intros (? & ? & _)].
Qed.

Lemma upcoming_dated LocalTZA now e : upcoming LocalTZA now e → dated LocalTZA e.
Proof. intros (t & Ht & _). by exists t. Qed.

(** X2: [getUpcomingEvents] does not change the store.  The events that
    start after the clock reading, put in ascending order of their start,
    are what it returns followed by what the limit cuts off; so it returns
    the earliest of them, and as many as the limit allows. *)
Theorem getUpcomingEvents_earliest LocalTZA clock limit s :
  ∃ found later,
    getUpcomingEvents LocalTZA clock limit s = (s, Ok found)
    ∧ (∀ e, e ∈ found ++ later ↔ e ∈ events s ∧ upcoming LocalTZA (clock 0%nat) e)
    ∧ length (found ++ later)
      = length (List.filter (λ e, gt (start LocalTZA e) (Num (clock 0%nat))) (events s))
    ∧ StronglySorted (le_start LocalTZA) (found ++ later)
    ∧ (0 ≤ default 10 limit →
       length found = Nat.min (Z.to_nat (default 10 limit)) (length (found ++ later))).
Proof.
  set (now := clock 0%nat).
  set (soon := List.filter (λ e, gt (start LocalTZA e) (Num now)) (events s)).
  set (by_start := λ a b, minus (start LocalTZA a) (start LocalTZA b)).
  set (sorted := sort by_start soon).
  assert (Hsoon : ∀ e, e ∈ soon ↔ e ∈ events s ∧ upcoming LocalTZA now e).
  { intros e. unfold soon.
    by rewrite list_elem_of_In, filter_In, <- list_elem_of_In, gt_upcoming. }
  assert (Hdated : Forall (dated LocalTZA) sorted).
  { apply Forall_forall. intros e He. unfold sorted in He. rewrite sort_perm in He.
    apply Hsoon in He as [_ He]. by eapply upcoming_dated. }
  assert (Hsorted : StronglySorted (le_start LocalTZA) sorted).
  { eapply StronglySorted_within; [|exact Hdated|].
    2: { apply (sort_sorted by_start (instant LocalTZA)).
         intros a b Ha%Hsoon Hb%Hsoon. apply by_start_below.
         - by eapply upcoming_dated, Ha.
         - by eapply upcoming_dated, Hb. }
    intros a b Ha%dated_instant Hb%dated_instant Hle. by eexists _, _. }
  destruct (Z.le_gt_cases 0 (default 10 limit)) as [Hl|Hl].
  - exists (take (Z.to_nat (default 10 limit)) sorted),
           (drop (Z.to_nat (default 10 limit)) sorted).
    rewrite take_drop. split; [|split; [|split; [|split]]].
    + unfold getUpcomingEvents. rewrite logged_run. unfold bind, get, ret. simpl.
      by rewrite slice_take.
    + intros e. unfold sorted. by rewrite sort_perm.
    + unfold sorted. by rewrite sort_perm.
    + done.
    + intros _. by rewrite length_take.
  - exists (slice 0 (default 10 limit) sorted).
    assert (∃ later, slice 0 (default 10 limit) sorted ++ later = sorted)
      as [later Hlater].
    { unfold slice. simpl. rewrite (Z.min_l 0) by lia. simpl.
      eexists. apply take_drop. }
    exists later. rewrite Hlater. split; [|split; [|split; [|split]]].
    + unfold getUpcomingEvents. by rewrite logged_run.
    + intros e. unfold sorted. by rewrite sort_perm.
    + unfold sorted. by rewrite sort_perm.
    + done.
    + lia.
Qed.

(** X3: [getPopularEvents] puts the collection itself in descending order
    of registrations, keeping its events, and returns its first events, as
    many as the limit allows; the file is not written. *)
Theorem getPopularEvents_top limit s :
  ∃ sorted found,
    getPopularEvents limit s = (set_events sorted s, Ok found)
    ∧ sorted ≡ₚ events s
    ∧ StronglySorted more_popular sorted
    ∧ (0 ≤ default 5 limit → found = take (Z.to_nat (default 5 limit)) sorted).
Proof.
  set (by_count := λ a b : record, Num (registrations b - registrations a)).
  exists (sort by_count (events s)), (slice 0 (default 5 limit) (sort by_count (events s))).
  split; [unfold getPopularEvents; by rewrite logged_run|].
  split; [apply sort_perm|]. split.
  - eapply (StronglySorted_within _ _ (λ _, True)); [| by apply Forall_true |].
    2: { apply (sort_sorted by_count (λ e, - registrations e)).
         intros a b _ _. unfold below, by_count.
         destruct (Z.ltb_spec (registrations b - registrations a) 0),
                  (Z.ltb_spec (- registrations a) (- registrations b)); lia. }
    intros a b _ _. unfold more_popular. simpl. lia.
  - intros Hl. by apply slice_take.
Qed.

End EventQueryFacts.

(** ** Statistics of the event store *)

Section EventStatsFacts.

Import Event EventSpec EventQueries EventMore.
Local Open Scope Z_scope.

Lemma inherited_not_proto (c : string) :
  inherited c = None → String.eqb c "__proto__" = false.
Proof.
  unfold inherited. destruct (String.eqb c "constructor"); [done|].
  by destruct (String.eqb c "__proto__").
Qed.

Lemma in_category_cons c e l :
  in_category c (e :: l) = (if decide (category e = c) then 1 else 0) + in_category c l.
Proof.
  unfold in_category. rewrite filter_cons.
  destruct (decide (category e = c)); simpl length; lia.
Qed.

Lemma in_category_nonneg c l : 0 ≤ in_category c l.
Proof. unfold in_category. lia. Qed.

(** The histogram loop, from any histogram that counts [c] rightly so far. *)
Lemma tally_counts (c : string) (l : list record) (acc : gmap string property) (n : Z) :
  inherited c = None → 0 ≤ n → acc !! c = counted n →
  fold_left (λ categoryStats event,
               set_property categoryStats (category event)
                 (or_zero_plus_one (get_property categoryStats (category event))))
            l acc !! c
  = counted (n + in_category c l).
Proof.
  intros Hc. revert acc n. induction l as [|e l IH]; intros acc n Hn Hacc.
  { simpl. unfold in_category. simpl. by rewrite Z.add_0_r. }
  simpl. rewrite in_category_cons.
  destruct (decide (category e = c)) as [->|Hne].
  - rewrite (IH _ (n + 1)); [f_equal; lia | lia |].
    unfold set_property. rewrite (inherited_not_proto c Hc), lookup_insert_eq.
    unfold get_property. rewrite Hacc, Hc. unfold counted.
    destruct (Z.eqb_spec (n + 1) 0); [lia|].
    by destruct (Z.eqb_spec n 0) as [->|?].
  - rewrite (IH _ n); [f_equal; lia | lia |].
    unfold set_property. destruct (String.eqb (category e) "__proto__"); [done|].
    by rewrite lookup_insert_ne.
Qed.

Lemma total_registrations_from (l : list record) (sum : Z) :
  Forall (λ e, registrations e = Z.of_nat (length (registeredUsers e))) l →
  fold_left (λ sum event, sum + registrations event) l sum
  = sum + registered_entries l.
Proof.
  unfold registered_entries. revert sum.
  induction l as [|e l IH]; intros sum Hall; simpl; [lia|].
  apply Forall_cons in Hall as [He Hall].
  rewrite IH by done. rewrite length_app, He, Nat2Z.inj_add, Z.add_assoc.
  reflexivity.
Qed.

Lemma count_upcoming_le (LocalTZA : Z → Z) (clock : nat → Z) (l : list record) :
  (length (List.filter (λ b : bool, b)
     (imap (λ n event, gt (start LocalTZA event) (Num (clock n))) l)) ≤ length l)%nat.
Proof.
  etransitivity; [apply List.filter_length_le|]. by rewrite length_imap.
Qed.

(** X4: [getEventStats] does not change the store.  The upcoming and the
    past events add up to all events; for every category that is not the
    name of a member of [Object.prototype], the histogram holds the number
    of events of that category, and no entry when there is none; and when
    every event has as many registrations as registered users, the total is
    the number of entries in the lists of registered users. *)
Theorem getEventStats_counts LocalTZA clock s :
  ∃ st,
    getEventStats LocalTZA clock s = (s, Ok st)
    ∧ totalEvents st = Z.of_nat (length (events s))
    ∧ 0 ≤ upcomingEvents st
    ∧ 0 ≤ pastEvents st
    ∧ upcomingEvents st + pastEvents st = totalEvents st
    ∧ (∀ c, inherited c = None →
            categoryStats st !! c = counted (in_category c (events s)))
    ∧ (Forall (λ e, registrations e = Z.of_nat (length (registeredUsers e))) (events s) →
       totalRegistrations st = registered_entries (events s)).
Proof.
  eexists. split; [unfold getEventStats; by rewrite logged_run|]. simpl.
  pose proof (count_upcoming_le LocalTZA clock (events s)).
  split; [done|]. split; [lia|]. split; [lia|]. split; [lia|]. split.
  - intros c Hc. by rewrite (tally_counts c _ _ 0).
  - intros Hall. by rewrite total_registrations_from.
Qed.

Lemma lte_past (LocalTZA : Z → Z) (now : Z) (e : record) :
  lte (start LocalTZA e) (Num now) = true ↔ past LocalTZA now e.
Proof.
  unfold past. destruct (start LocalTZA e) as [t| | |]; simpl.
  - rewrite Z.leb_le. split; [by eexists | by intros (? & [= <-] & ?)].
  - split; [done | by intros (? & ? & _)].
  - split; [done | by intros (? & ? & _)].
  - split; [done | by intros (? & ? & _)].
Qed.

(** With one clock reading, every event is upcoming, past or undated, and
    one of them only. *)
Lemma three_way (LocalTZA : Z → Z) (now : Z) (l : list record) :
  Z.of_nat (length l)
  = Z.of_nat (length (List.filter (λ b : bool, b)
                (imap (λ _ event, gt (start LocalTZA event) (Num now)) l)))
    + Z.of_nat (length (List.filter (λ event, lte (start LocalTZA event) (Num now)) l))
    + Z.of_nat (length (List.filter (undated LocalTZA) l)).
Proof.
  change (imap (λ _ event, gt (start LocalTZA event) (Num now)) l)
    with (imap (const (λ event, gt (start LocalTZA event) (Num now))) l).
  rewrite imap_const. induction l as [|e l IH]; [done|].
  rewrite fmap_cons. simpl. unfold undated at 1.
  destruct (start LocalTZA e) as [t| | |]; simpl; try lia.
  destruct (Z.ltb_spec now t), (Z.leb_spec t now); simpl; lia.
Qed.

(** X5: [cleanupPastEvents] removes nothing: it leaves the store as it is
    and returns the number of events that started at the clock reading or
    before.  An event whose date cannot be read is not among them, while
    [getEventStats] counts it as past: read at the same instant, its
    [pastEvents] is this number plus the number of such events. *)
Theorem cleanupPastEvents_counts LocalTZA clock s :
  ∃ pasts,
    cleanupPastEvents LocalTZA clock s = (s, Ok (Z.of_nat (length pasts)))
    ∧ (∀ e, e ∈ pasts ↔ e ∈ events s ∧ past LocalTZA (clock 0%nat) e)
    ∧ ((∀ n, clock n = clock 0%nat) →
       ∃ st, getEventStats LocalTZA clock s = (s, Ok st)
             ∧ pastEvents st = Z.of_nat (length pasts)
                               + Z.of_nat (length (List.filter (undated LocalTZA) (events s)))).
Proof.
  eexists. split; [unfold cleanupPastEvents; by rewrite logged_run|]. split.
  - intros e. by rewrite list_elem_of_In, filter_In, <- list_elem_of_In, lte_past.
  - intros Hclock. eexists. split; [unfold getEventStats; by rewrite logged_run|].
    simpl.
    rewrite (imap_ext (λ n event, gt (start LocalTZA event) (Num (clock n)))
               (λ _ event, gt (start LocalTZA event) (Num (clock 0%nat))) (events s))
      by (intros; by rewrite Hclock).
    rewrite (three_way LocalTZA (clock 0%nat) (events s)) at 1. lia.
Qed.

End EventStatsFacts.

(** ** Ids and lookups in the event store *)

Section ArrayFacts.

Context {A B : Type} (f : A → B).


Lemma NoDup_fmap_same (l : list A) (x y : A) :
  NoDup (f <$> l) → x ∈ l → y ∈ l → f x = f y → x = y.
Proof.
  induction l as [|z l IH]; intros Hnd Hx Hy Hf; [by apply elem_of_nil in Hx|].
  rewrite fmap_cons in Hnd. apply NoDup_cons in Hnd as [Hz Hnd].
  apply elem_of_cons in Hx as [->|Hx]; apply elem_of_cons in Hy as [->|Hy].
  - done.
  - destruct Hz. rewrite Hf. by apply list_elem_of_fmap_2.
  - destruct Hz. rewrite <- Hf. by apply list_elem_of_fmap_2.
  - by apply IH.
Qed.

(** With distinct keys, removing a slot removes its key. *)
Lemma NoDup_fmap_delete (l : list A) (k : nat) (x y : A) :
  NoDup (f <$> l) → l !! k = Some x → y ∈ delete k l → f y ≠ f x.
Proof.
  revert k. induction l as [|z l IH]; intros [|k] Hnd Hk Hy; try done;
    rewrite fmap_cons in Hnd; apply NoDup_cons in Hnd as [Hz Hnd]; simpl in *.
  - injection Hk as ->. intros Hf. destruct Hz. rewrite <- Hf.
    by apply list_elem_of_fmap_2.
  - apply elem_of_cons in Hy as [->|Hy]; [|by eapply IH].
    intros Hf. destruct Hz. rewrite Hf.
    apply list_elem_of_fmap_2. by eapply list_elem_of_lookup_2.
Qed.

End ArrayFacts.

Section FindFacts.

Context {A : Type} (P : A → Prop) `{!∀ x, Decision (P x)}.

(** Removing a slot that fails the test does not change what [find]
    returns. *)
Lemma list_find_delete_other (l : list A) (k : nat) (x : A) :
  l !! k = Some x → ¬ P x →
  snd <$> list_find P (delete k l) = snd <$> list_find P l.
Proof.
  revert k. induction l as [|z l IH]; intros [|k] Hk Hx; try done; simpl in *.
  - injection Hk as ->. rewrite decide_False by done.
    by destruct (list_find P l) as [[? ?]|].
  - destruct (decide (P z)); [done|].
    specialize (IH k Hk Hx).
    destruct (list_find P (delete k l)) as [[? ?]|],
             (list_find P l) as [[? ?]|]; simpl in *; congruence.
Qed.

(** When at most one element passes the test, [find] returns the same
    element in every order. *)
Lemma list_find_perm (l l' : list A) :
  l ≡ₚ l' → (∀ x y, x ∈ l → y ∈ l → P x → P y → x = y) →
  snd <$> list_find P l = snd <$> list_find P l'.
Proof.
  intros Hp Huniq.
  destruct (list_find P l) as [[k x]|] eqn:Hl.
  - apply list_find_Some in Hl as (Hk & Hx & _).
    assert (Hin : x ∈ l) by (by eapply list_elem_of_lookup_2).
    destruct (list_find_elem_of P l' x) as [[k' y] Hl']; [by rewrite <- Hp | done |].
    rewrite Hl'. apply list_find_Some in Hl' as (Hk' & Hy & _). simpl. f_equal.
    apply Huniq; [done | | done | done].
    rewrite Hp. by eapply list_elem_of_lookup_2.
  - apply list_find_None in Hl. simpl. symmetry.
    assert (list_find P l' = None) as ->; [|done].
    apply list_find_None. by rewrite <- Hp.
Qed.

End FindFacts.

Section EventIdentity.

Import Event EventSpec EventLife EventQueries EventMore.
Local Open Scope Z_scope.




Lemma Forall_rewrite (P : record → Prop) (l : list record) k e' :
  Forall P l → P e' → Forall P (<[k:=e']> l).
Proof. intros. by apply Forall_insert. Qed.





Lemma event_with_perm i s l :
  l ≡ₚ events s → NoDup (id <$> events s) →
  event_with i (set_events l s) = event_with i s.
Proof.
  intros Hp Hnd. unfold event_with, target. simpl. symmetry.
  apply list_find_perm; [done|].
  intros x y Hx Hy Hix Hiy. eapply (NoDup_fmap_same id); eauto. congruence.
Qed.

(** X8: [findAll] and [getPopularEvents] reorder the collection in memory;
    when no two events share an id, [findById] finds the same event under
    every id after either call as before, and the file is not written. *)
Theorem reorder_keeps_lookups LocalTZA clock limit s :
  NoDup (id <$> events s) →
  (∀ i, event_with i (findAll LocalTZA clock s).1 = event_with i s)
  ∧ (∀ i, event_with i (getPopularEvents limit s).1 = event_with i s)
  ∧ dataFile (findAll LocalTZA clock s).1 = dataFile s
  ∧ dataFile (getPopularEvents limit s).1 = dataFile s.
Proof.
  intros Hnd. unfold findAll, getPopularEvents. rewrite !logged_run.
  repeat split; try done; intros i; apply event_with_perm; try done;
    apply sort_perm.
Qed.

(** X9: when no two events share an id, a [delete] call for an id that is
    there leaves no event under that id, whether the write to disk succeeded
    or not, and every other id refers to the event it referred to. *)
Theorem delete_then_find io i s k e :
  NoDup (id <$> events s) →
  target i s = Some (k, e) →
  event_with i (delete io i s).1 = None
  ∧ (∀ j, j ≠ i → event_with j (delete io i s).1 = event_with j s)
  ∧ length (events (delete io i s).1) = (length (events s) - 1)%nat.
Proof.
  intros Hnd Ht. rewrite delete_run, Ht.
  pose proof Ht as [Hk Hlt]%list_find_slot. pose proof (target_id _ _ _ _ Ht) as Hid.
  unfold event_with. split; [|split].
  - rewrite target_commit. unfold target. simpl.
    assert (list_find (λ ev, id ev = i) (base.delete k (events s)) = None) as ->; [|done].
    apply list_find_None, Forall_forall. intros y Hy.
    rewrite <- Hid. by eapply (NoDup_fmap_delete id).
  - intros j Hj. rewrite target_commit. unfold target. simpl.
    eapply list_find_delete_other; [exact Hk | congruence].
  - rewrite commit_events. simpl. by rewrite length_delete.
Qed.

End EventIdentity.

(** ** How the operations of the event store compose *)

Section EventCompose.

Import Event EventSpec EventLife EventQueries EventMore.
Local Open Scope Z_scope.

Lemma filter_pushed (l : list Z) (u : Z) :
  Array_includes l u = false →
  List.filter (λ id, negb (id =? u)) (l ++ [u]) = l.
Proof.
  intros Hin. rewrite List.filter_app. simpl. rewrite Z.eqb_refl. simpl.
  rewrite app_nil_r. apply forallb_filter_id. apply forallb_forall.
  intros x Hx. destruct (Z.eqb_spec x u) as [->|]; [|done].
  assert (Array_includes l u = true); [|congruence].
  apply Array_includes_spec. by apply list_elem_of_In.
Qed.


Lemma merge_twice e updateData now :
  merge (merge e updateData now) updateData now = merge e updateData now.
Proof.
  destruct updateData as [[] [] [] [] [] [] [] [] [] [] [] [] [] []]; reflexivity.
Qed.

(** X11: an [update] call for an id that is there replaces the event in
    its slot and touches no other slot; and with update data that holds no
    id, the same call again at the same clock reading changes nothing more
    in memory. *)
Theorem update_in_place clock io io' i updateData s k e :
  target i s = Some (k, e) →
  events (update clock io i updateData s).1 !! k
    = Some (merge e updateData (toISOString (clock 0%nat)))
  ∧ (∀ j, j ≠ k → events (update clock io i updateData s).1 !! j = events s !! j)
  ∧ length (events (update clock io i updateData s).1) = length (events s)
  ∧ (Patch.id updateData = None →
     events (update clock io' i updateData (update clock io i updateData s).1).1
     = events (update clock io i updateData s).1).
Proof.
  intros Ht. pose proof Ht as [Hk Hlt]%list_find_slot.
  rewrite (update_run clock io), Ht. cbv zeta.
  set (e' := merge e updateData (toISOString (clock 0%nat))).
  rewrite !commit_events. simpl. split; [|split; [|split]].
  - by apply list_lookup_insert_eq.
  - intros j Hj. by apply list_lookup_insert_ne.
  - apply length_insert.
  - intros Hid. rewrite update_run, target_commit.
    erewrite target_rewrite;
      [| exact Ht | subst e'; simpl; rewrite Hid; by apply target_id in Ht].
    cbv zeta. rewrite !commit_events. simpl.
    subst e'. by rewrite merge_twice, list_insert_insert_eq.
Qed.


End EventCompose.

(** ** More of the user store *)

Section UserMoreFacts.

Import User UserSpec UserMore.
Local Open Scope Z_scope.

Lemma user_delete_run io i s :
  delete io i s =
  match target i s with
  | None => (s, Throw (Error "User not found"))
  | Some (k, _) => commit io (set_users (base.delete k (users s)) s) true
  end.
Proof.
  unfold delete, target, findIndex. rewrite logged_run. unfold bind at 1, get.
  destruct (list_find _ _) as [[k u]|]; simpl; [|done].
  unfold bind at 1, modify. unfold bind at 1. rewrite saveUsers_run.
  unfold commit. by destruct io.
Qed.

Lemma removeRegisteredEvent_run clock io userId eventId s :
  removeRegisteredEvent clock io userId eventId s =
  match target userId s with
  | None => (s, Throw (Error "User not found"))
  | Some (k, u) =>
      let u' := rewritten u
                  (List.filter (λ id, negb (id =? eventId)) (registeredEvents u))
                  (toISOString (clock 0%nat)) in
      commit io (set_users (<[k:=u']> (users s)) s) true
  end.
Proof.
  unfold removeRegisteredEvent. rewrite logged_run.
  unfold bind at 1. rewrite user_findById_run. unfold findIndex, target.
  destruct (list_find _ _) as [[k u]|] eqn:Hf; simpl; [|done].
  pose proof Hf as [Hk Hlt]%list_find_slot.
  unfold bind at 1. rewrite (user_assign_run _ _ _ _ Hk).
  unfold bind at 1. erewrite user_deref_run
    by (simpl; by apply list_lookup_insert_eq).
  unfold bind at 1. rewrite user_update_run. unfold target. simpl.
  erewrite list_find_overwrite; [| exact Hf | by apply list_find_Some in Hf as (_ & ? & _)].
  rewrite list_insert_insert_eq.
  unfold commit. by destruct io.
Qed.

Lemma getUserStats_run userId s :
  getUserStats userId s =
  match target userId s with
  | None => (s, Throw (Error "User not found"))
  | Some (_, u) =>
      (s, Ok {| totalEvents := Z.of_nat (length (registeredEvents u));
                memberSince := createdAt u; lastUpdated := updatedAt u |})
  end.
Proof.
  unfold getUserStats. rewrite logged_run.
  unfold bind at 1. rewrite user_findById_run. unfold findIndex, target.
  destruct (list_find _ _) as [[k u]|] eqn:Hf; simpl; [|done].
  pose proof Hf as [Hk Hlt]%list_find_slot.
  unfold bind at 1. by rewrite (user_deref_run _ _ _ Hk).
Qed.

Lemma changePassword_run bcrypt_hash clock io userId newPassword s :
  changePassword bcrypt_hash clock io userId newPassword s =
  match bcrypt_hash newPassword 12 with
  | Throw e => (s, Throw e)
  | Ok hashedPassword =>
      match target userId s with
      | None => (s, Throw (Error "User not found"))
      | Some (k, u) =>
          let u' := merge u
            {| Patch.id := None; Patch.name := None; Patch.email := None;
               Patch.password := Some hashedPassword;
               Patch.registeredEvents := None; Patch.createdAt := None |}
            (toISOString (clock 0%nat)) in
          commit io (set_users (<[k:=u']> (users s)) s) true
      end
  end.
Proof.
  unfold changePassword. rewrite logged_run. unfold bind at 1, await.
  destruct (bcrypt_hash newPassword 12) as [h|e]; [|done].
  unfold bind at 1. rewrite user_update_run.
  destruct (target userId s) as [[k u]|]; [|done].
  unfold commit. by destruct io.
Qed.

(** X13: when [update], [delete], [addRegisteredEvent],
    [removeRegisteredEvent], [getUserStats] or [changePassword] of the user
    store throws "User not found", the instance is what it was before the
    call; and [changePassword] hashes first, so a rejection by the hashing
    library is thrown as it is, with nothing changed. *)
Theorem user_failures_are_atomic
    (bcrypt_hash : string → Z → result string)
    clock io userId eventId updateData newPassword s :
  (∀ s' e, update clock io userId updateData s = (s', Throw e) →
           classify e = NotFound → s' = s)
  ∧ (∀ s' e, delete io userId s = (s', Throw e) → classify e = NotFound → s' = s)
  ∧ (∀ s' e, addRegisteredEvent clock io userId eventId s = (s', Throw e) →
             classify e = NotFound → s' = s)
  ∧ (∀ s' e, removeRegisteredEvent clock io userId eventId s = (s', Throw e) →
             classify e = NotFound → s' = s)
  ∧ (∀ s' e, getUserStats userId s = (s', Throw e) → classify e = NotFound → s' = s)
  ∧ (∀ s' e, changePassword bcrypt_hash clock io userId newPassword s = (s', Throw e) →
             classify e = NotFound → s' = s)
  ∧ (∀ e, bcrypt_hash newPassword 12 = Throw e →
          changePassword bcrypt_hash clock io userId newPassword s = (s, Throw e)).
Proof.
  rewrite user_update_run, user_delete_run, addRegisteredEvent_run,
    removeRegisteredEvent_run, getUserStats_run, changePassword_run.
  unfold commit.
  split; [|split; [|split; [|split; [|split; [|split]]]]].
  1-5: intros s' e; destruct (target userId s) as [[k u]|];
    repeat match goal with |- context [if ?b then _ else _] => destruct b end;
    cbv zeta; intros [= <- <-]; simpl; done.
  - intros s' e. destruct (bcrypt_hash newPassword 12) as [h|e0].
    + destruct (target userId s) as [[k u]|]; [|by intros [= <- <-]].
      destruct io; cbv zeta; intros [= <- <-]; simpl; done.
    + by intros [= <- <-].
  - by intros e ->.
Qed.

Lemma lower_char_twice (c : ascii) : lower_char (lower_char c) = lower_char c.
Proof. destruct c as [[] [] [] [] [] [] [] []]; reflexivity. Qed.

Lemma toLowerCase_twice (s : string) : toLowerCase (toLowerCase s) = toLowerCase s.
Proof.
  induction s as [|c s IH]; [done|]. simpl. by rewrite lower_char_twice, IH.
Qed.

Lemma findByEmail_run mail s : findByEmail mail s = (s, Ok (fst <$> by_email mail s)).
Proof. unfold findByEmail. by rewrite logged_run. Qed.

(** X14: after a [create] call, whether its write to disk succeeded or
    not, [findByEmail] with the email given, in any letter case, finds the
    new user when no user had that email before; when one had, it still
    finds that one: the store takes the second user all the same. *)
Theorem create_then_findByEmail clock io userData mail s :
  toLowerCase mail = toLowerCase (Data.email userData) →
  (by_email mail s = None →
   by_email mail (create clock io userData s).1
   = Some (length (users s), fresh (nextId s) clock userData))
  ∧ (∀ k u, by_email mail s = Some (k, u) →
            by_email mail (create clock io userData s).1 = Some (k, u))
  ∧ length (users (create clock io userData s).1) = S (length (users s))
  ∧ findByEmail mail (create clock io userData s).1
    = ((create clock io userData s).1,
       Ok (fst <$> by_email mail (create clock io userData s).1)).
Proof.
  intros Hmail. rewrite user_create_run.
  unfold by_email. rewrite user_commit_users. simpl.
  split; [|split; [|split]].
  - intros Hnone. rewrite list_find_app_r by done. simpl.
    rewrite decide_True; [done|]. simpl. by rewrite toLowerCase_twice.
  - intros k u Hsome. by apply list_find_app_l.
  - rewrite length_app. simpl. lia.
  - rewrite findByEmail_run. unfold by_email. by rewrite user_commit_users.
Qed.

Lemma user_filter_others (l : list Z) (x : Z) :
  List.filter (λ id, negb (id =? x)) l = filter (λ id, id ≠ x) l.
Proof.
  induction l as [|y l IH]; [done|]. simpl. rewrite filter_cons.
  destruct (Z.eqb_spec y x); simpl.
  - by rewrite decide_False by (intros ?; congruence).
  - by rewrite decide_True, IH.
Qed.

(** X15: for an existing user, [removeRegisteredEvent] takes every
    occurrence of the event id out of the list of the user, and never
    objects to an id that is not in the list: it returns true unless the
    write to disk fails.  After [addRegisteredEvent] for an id that was not
    in the list, it gives the list back as it was. *)
Theorem removeRegisteredEvent_effect clock io clock' io' userId eventId s k u :
  target userId s = Some (k, u) →
  (∃ u', target userId (removeRegisteredEvent clock io userId eventId s).1 = Some (k, u')
         ∧ registeredEvents u' = filter (λ id, id ≠ eventId) (registeredEvents u)
         ∧ (eventId ∉ registeredEvents u'))
  ∧ (removeRegisteredEvent clock io userId eventId s).2
    = (if io then Ok true else Throw (SystemError "EIO"))
  ∧ (eventId ∉ registeredEvents u →
     ∃ u', target userId
             (removeRegisteredEvent clock io userId eventId
                (addRegisteredEvent clock' io' userId eventId s).1).1 = Some (k, u')
           ∧ registeredEvents u' = registeredEvents u).
Proof.
  intros Ht. pose proof (proj1 (list_find_Some _ _ _ _) Ht) as (_ & Hid & _).
  split; [|split].
  - rewrite removeRegisteredEvent_run, Ht. cbv zeta. eexists. split.
    + rewrite user_target_commit. by eapply user_target_rewrite.
    + simpl. rewrite user_filter_others. split; [done|].
      rewrite list_elem_of_filter. by intros [? _].
  - rewrite removeRegisteredEvent_run, Ht. unfold commit. by destruct io.
  - intros Hnot. rewrite addRegisteredEvent_run, Ht.
    destruct (Array_includes (registeredEvents u) eventId) eqn:Hin.
    { apply Array_includes_spec in Hin. done. }
    cbv zeta. rewrite removeRegisteredEvent_run, user_target_commit.
    erewrite user_target_rewrite; [| exact Ht | done].
    cbv zeta. eexists. split.
    + rewrite user_target_commit. eapply user_target_rewrite; [|done].
      rewrite user_target_commit. by eapply user_target_rewrite.
    + simpl. by apply filter_pushed.
Qed.

(** X16: after [changePassword] hashed the new password, for an existing
    user and whether the write to disk succeeded or not, [validatePassword]
    answers for that user what the library answers for the new hash: true
    for the new password when the library accepts the hash it made. *)
Theorem changePassword_then_validate
    (bcrypt_hash : string → Z → result string)
    (bcrypt_compare : string → string → result bool)
    clock io userId newPassword hashed plaintext answer s k u :
  target userId s = Some (k, u) →
  bcrypt_hash newPassword 12 = Ok hashed →
  bcrypt_compare plaintext hashed = Ok answer →
  validatePassword bcrypt_compare userId plaintext
    (changePassword bcrypt_hash clock io userId newPassword s).1
  = ((changePassword bcrypt_hash clock io userId newPassword s).1, Ok answer).
Proof.
  intros Ht Hh Hc. pose proof (proj1 (list_find_Some _ _ _ _) Ht) as (_ & Hid & _).
  rewrite changePassword_run, Hh, Ht. cbv zeta.
  set (s' := (commit io _ true).1).
  assert (Ht' : target userId s' = Some (k, merge u
            {| Patch.id := None; Patch.name := None; Patch.email := None;
               Patch.password := Some hashed;
               Patch.registeredEvents := None; Patch.createdAt := None |}
            (toISOString (clock 0%nat)))).
  { subst s'. rewrite user_target_commit. by eapply user_target_rewrite. }
  pose proof Ht' as [Hk _]%list_find_slot.
  unfold validatePassword, try_catch. unfold bind at 1.
  rewrite user_findById_run. unfold findIndex. unfold target in Ht'. rewrite Ht'.
  simpl. unfold bind at 1. rewrite (user_deref_run _ _ _ Hk).
  unfold await. simpl. by rewrite Hc.
Qed.

Lemma includes_empty_term (s : string) : includes s "" = true.
Proof. apply includes_spec. exists "", s. by rewrite !append_empty. Qed.

(** X17: [searchUsers] returns, without their passwords and without
    changing the store, the users whose name or email contains the text,
    letter case apart; with the empty text these are all users, as
    [getAllUsers] returns them. *)
Theorem searchUsers_matches query s :
  ∃ found,
    searchUsers query s = (s, Ok found)
    ∧ (∀ p, p ∈ found ↔
            ∃ u, u ∈ users s ∧ p = withoutPassword u
                 ∧ (EventQueries.occurs (toLowerCase query) (toLowerCase (name u))
                    ∨ EventQueries.occurs (toLowerCase query) (toLowerCase (email u))))
    ∧ (query = "" → getAllUsers s = (s, Ok found)).
Proof.
  eexists. split; [unfold searchUsers; by rewrite logged_run|]. split.
  - intros p. rewrite list_elem_of_fmap. split.
    + intros (u & -> & Hu). exists u.
      apply list_elem_of_In, filter_In in Hu as [Hu Hm].
      rewrite orb_true_iff, !includes_spec in Hm.
      by rewrite list_elem_of_In.
    + intros (u & Hu & -> & Hm). exists u. split; [done|].
      apply list_elem_of_In, filter_In. rewrite orb_true_iff, !includes_spec.
      by rewrite <- list_elem_of_In.
  - intros ->. unfold getAllUsers. rewrite logged_run. unfold bind, get, ret.
    simpl. do 3 f_equal. symmetry. apply forallb_filter_id, forallb_forall.
    intros u _. by rewrite includes_empty_term.
Qed.

End UserMoreFacts.

(** ** The authentication middleware *)

Section AuthFacts.

Import Auth HttpSpec.
Local Open Scope Z_scope.

Lemma split_cons (sep a : ascii) (s : string) :
  split sep (String a s)
  = if Ascii.eqb a sep then EmptyString :: split sep s
    else match split sep s with
         | w :: ws => String a w :: ws
         | [] => [String a EmptyString]
         end.
Proof. reflexivity. Qed.

Lemma split_spaceless (t : string) : spaceless t = true → split " " t = [t].
Proof.
  induction t as [|c t IH]; [done|]. simpl.
  intros [Hc Ht]%andb_true_iff. apply negb_true_iff in Hc. rewrite Hc.
  by rewrite IH.
Qed.

Lemma split_word (w rest : string) :
  spaceless w = true → split " " (w +:+ " " +:+ rest) = w :: split " " rest.
Proof.
  induction w as [|c w IH]; [intros _; by rewrite append_empty, append_cons, append_empty, split_cons|].
  cbn [spaceless]. intros [Hc Hw]%andb_true_iff. apply negb_true_iff in Hc.
  by rewrite append_cons, split_cons, Hc, IH.
Qed.

(** The token is the second word of the header, whatever the first is. *)
Lemma bearer_second_word (scheme token : string) :
  spaceless scheme = true → spaceless token = true →
  bearer (Some (scheme +:+ " " +:+ token)) = Some token.
Proof.
  intros Hs Ht.
  assert (Hsplit : split " " (scheme +:+ " " +:+ token) !! 1%nat = Some token).
  { by rewrite split_word, split_spaceless. }
  unfold bearer. destruct (scheme +:+ " " +:+ token) as [|c s] eqn:Heq; [|done].
  by destruct scheme.
Qed.

(** Every refusal of [authenticateToken] has the status 401. *)
Lemma authenticateToken_refuses
    (env_JWT_SECRET : option string) (jwt_verify : string → string → verdict)
    (authorization : option string) (code : Z) (message : string) :
  authenticateToken env_JWT_SECRET jwt_verify authorization = Status code message →
  code = 401.
Proof.
  unfold authenticateToken.
  destruct (bearer authorization) as [[|c t]|]; simpl; [by intros [= <- _]| |by intros [= <- _]].
  destruct (jwt_verify _ _); by intros [= <- _].
Qed.

(** X18: [authenticateToken] lets a request through exactly when the second
    word of its [authorization] header is a token that [jwt.verify]
    accepts under the secret, and then with the decoded payload; every
    refusal has the status 401, and a header without a second word is
    refused with "Access token required"; the first word of the header is
    not looked at. *)
Theorem authenticateToken_decides
    (env_JWT_SECRET : option string) (jwt_verify : string → string → verdict)
    (authorization : option string) :
  (∀ decoded,
     authenticateToken env_JWT_SECRET jwt_verify authorization = Next decoded ↔
     ∃ token, bearer authorization = Some token ∧ token ≠ ""
              ∧ jwt_verify token (JWT_SECRET env_JWT_SECRET) = Decoded decoded)
  ∧ (∀ code message,
       authenticateToken env_JWT_SECRET jwt_verify authorization = Status code message →
       code = 401)
  ∧ (bearer authorization = None →
     authenticateToken env_JWT_SECRET jwt_verify authorization
     = Status 401 "Access token required")
  ∧ (∀ scheme token,
       spaceless scheme = true → spaceless token = true →
       authorization = Some (scheme +:+ " " +:+ token) →
       authenticateToken env_JWT_SECRET jwt_verify authorization
       = authenticateToken env_JWT_SECRET jwt_verify (Some ("Bearer " +:+ token))).
Proof.
  split; [|split; [|split]].
  - intros decoded. unfold authenticateToken.
    destruct (bearer authorization) as [[|c t]|]; simpl.
    + split; [done | by intros (? & [= <-] & ? & _)].
    + destruct (jwt_verify _ _) eqn:Hv; split; try done;
        try (intros (? & [= <-] & _ & Hv'); congruence).
      intros [= ->]. by eexists.
    + split; [done | by intros (? & ? & _)].
  - intros code message. apply authenticateToken_refuses.
  - intros Hb. unfold authenticateToken. by rewrite Hb.
  - intros scheme token Hs Ht ->. unfold authenticateToken.
    rewrite (bearer_second_word scheme token Hs Ht).
    change ("Bearer " +:+ token) with ("Bearer" +:+ " " +:+ token).
    by rewrite (bearer_second_word "Bearer" token eq_refl Ht).
Qed.

(** X19: [optionalAuth] and [authenticateToken] judge a header alike:
    [optionalAuth] leaves the decoded payload in [req.user] exactly when
    [authenticateToken] lets the request through with it, leaves [req.user]
    as it was exactly when [authenticateToken] asks for a token, and sets
    it to [null] in every other case. *)
Theorem optionalAuth_agrees
    (env_JWT_SECRET : option string) (jwt_verify : string → string → verdict)
    (authorization : option string) :
  (∀ decoded,
     optionalAuth env_JWT_SECRET jwt_verify authorization = User decoded ↔
     authenticateToken env_JWT_SECRET jwt_verify authorization = Next decoded)
  ∧ (optionalAuth env_JWT_SECRET jwt_verify authorization = Untouched ↔
     authenticateToken env_JWT_SECRET jwt_verify authorization
     = Status 401 "Access token required")
  ∧ (optionalAuth env_JWT_SECRET jwt_verify authorization = NullUser ↔
     ∃ message,
       authenticateToken env_JWT_SECRET jwt_verify authorization = Status 401 message
       ∧ message ≠ "Access token required").
Proof.
  unfold optionalAuth, authenticateToken.
  destruct (bearer authorization) as [[|c t]|]; simpl.
  - repeat split; try done; try congruence. by intros (? & [= <-] & ?).
  - destruct (jwt_verify _ _); repeat split; try done; try congruence;
      try (by intros (? & ? & _)); try (intros _; by eexists).
  - repeat split; try done; try congruence. by intros (? & [= <-] & ?).
Qed.

End AuthFacts.

(** ** The account routes *)

Section AuthRouteFacts.

Import AuthRoutes HttpSpec UserSpec UserMore.
Local Open Scope Z_scope.

Variable env_JWT_SECRET : option string.
Variable jwt_sign : Auth.payload → string → string → result string.
Variable bcrypt_hash : string → Z → result string.
Variable bcrypt_compare : string → string → result bool.

(** What [login] does once both fields are there. *)
Lemma login_run (e p : string) (rest_e rest_p : string) (c d : ascii) name s :
  e = String c rest_e → p = String d rest_p →
  login env_JWT_SECRET jwt_sign bcrypt_compare
    {| Body.name := name; Body.email := Some e; Body.password := Some p |} s
  = (s, Ok match by_email e s with
           | None => failure 401 "Invalid email or password"
           | Some (_, u) =>
               match bcrypt_compare p (User.password u) with
               | Throw _ => failure 500 "Internal server error during login"
               | Ok false => failure 401 "Invalid email or password"
               | Ok true =>
                   match Auth.generateToken env_JWT_SECRET jwt_sign u with
                   | Ok token => logged_in u token
                   | Throw _ => failure 500 "Internal server error during login"
                   end
               end
           end).
Proof.
  intros -> ->. unfold login, try_catch. simpl.
  unfold bind at 1. rewrite findByEmail_run. unfold by_email.
  destruct (list_find _ _) as [[k u]|] eqn:Hf; simpl; [|done].
  pose proof Hf as [Hk _]%list_find_slot.
  unfold bind at 1. rewrite (user_deref_run _ _ _ Hk).
  unfold bind at 1, User.await.
  destruct (bcrypt_compare _ _) as [[|]|]; simpl; try done.
  unfold bind at 1.
  by destruct (Auth.generateToken _ _ _).
Qed.

Lemma login_incomplete body s :
  missing (Body.email body) || missing (Body.password body) = true →
  login env_JWT_SECRET jwt_sign bcrypt_compare body s
  = (s, Ok (failure 400 "Email and password are required")).
Proof.
  destruct body as [n [[|c e]|] [[|d p]|]]; simpl; try done.
Qed.

(** X20: [login] never changes the store and never throws.  It answers
    400 when the email or the password is missing or empty; otherwise, 401
    with one and the same body when no user has the email (letter case
    apart) and when the library finds the password wrong; 200 with the user
    without the password and a token when the library finds the password
    right for the first user with that email; and 500 when the library
    throws. *)
Theorem login_answers body s :
  ∃ r,
    login env_JWT_SECRET jwt_sign bcrypt_compare body s = (s, Ok r)
    ∧ (missing (Body.email body) || missing (Body.password body) = true →
       r = failure 400 "Email and password are required")
    ∧ (status r = 401 → r = failure 401 "Invalid email or password")
    ∧ (∀ email password,
         Body.email body = Some email → Body.password body = Some password →
         missing (Body.email body) || missing (Body.password body) = false →
         match by_email email s with
         | None => status r = 401
         | Some (_, u) =>
             (bcrypt_compare password (User.password u) = Ok false → status r = 401)
             ∧ (∀ token,
                  bcrypt_compare password (User.password u) = Ok true →
                  Auth.generateToken env_JWT_SECRET jwt_sign u = Ok token →
                  r = logged_in u token)
             ∧ (status r = 200 →
                bcrypt_compare password (User.password u) = Ok true)
         end).
Proof.
  destruct (missing (Body.email body) || missing (Body.password body)) eqn:Hm.
  { eexists. split; [by apply login_incomplete|]. by repeat split. }
  destruct body as [n [[|c e]|] [[|d p]|]]; simpl in Hm; try done.
  eexists. split; [by eapply login_run|].
  split; [done|]. split.
  - destruct (by_email _ s) as [[k u]|]; [|done].
    destruct (bcrypt_compare _ _) as [[|]|]; try done.
    by destruct (Auth.generateToken _ _ _).
  - intros email password [= <-] [= <-] _. simpl.
    destruct (by_email _ s) as [[k u]|]; [|done].
    destruct (bcrypt_compare _ _) as [[|]|]; simpl.
    + destruct (Auth.generateToken _ _ _); repeat split; try done; congruence.
    + repeat split; try done.
    + repeat split; try done.
Qed.

Ltac settle :=
  try done;
  try (simpl; lia);
  try (by left);
  try (by right);
  try (simpl; by intros [|]);
  try (intros ? [= <-] ?; simpl in *; lia);
  try (intros ? ? ? [= <-]; congruence).

(** What [register] does once the three fields are there. *)
Lemma register_run clock io (n e p : string) s :
  missing (Some n) || missing (Some e) || missing (Some p) = false →
  register bcrypt_hash clock io
    {| Body.name := Some n; Body.email := Some e; Body.password := Some p |} s
  = if Z.of_nat (String.length p) <? 6 then
      (s, Ok (failure 400 "Password must be at least 6 characters long"))
    else match by_email e s with
         | Some _ => (s, Ok (failure 409 "User with this email already exists"))
         | None =>
             match bcrypt_hash p 12 with
             | Throw _ =>
                 (s, Ok (failure 500 "Internal server error during registration"))
             | Ok hashed =>
                 let new := fresh (User.nextId s) clock
                   {| User.Data.name := n; User.Data.email := e;
                      User.Data.password := hashed |} in
                 let s' := User.set_users (User.users s ++ [new])
                             (User.set_nextId (User.nextId s + 1) s) in
                 if io then
                   (User.set_dataFile (User.stringify (User.users s')) s',
                    Ok {| status := 201; success := true;
                          message := "User registered successfully";
                          user := Some (User.withoutPassword new); token := None |})
                 else
                   (s', Ok (failure 500 "Internal server error during registration"))
             end
         end.
Proof.
  intros Hm. unfold register, try_catch.
  cbn [Body.name Body.email Body.password]. rewrite Hm.
  destruct (Z.of_nat (String.length p) <? 6); [done|].
  unfold bind at 1. rewrite findByEmail_run. unfold by_email.
  destruct (list_find _ _) as [[k u]|]; simpl; [done|].
  unfold bind at 1, User.await.
  destruct (bcrypt_hash p 12) as [h|]; simpl; [|done].
  unfold bind at 1. rewrite user_create_run. unfold commit.
  by destruct io.
Qed.

Lemma register_incomplete clock io body s :
  missing (Body.name body) || missing (Body.email body)
    || missing (Body.password body) = true →
  register bcrypt_hash clock io body s
  = (s, Ok (failure 400 "All fields are required")).
Proof.
  destruct body as [[[|b n]|] [[|c e]|] [[|d p]|]]; simpl; try done.
Qed.

Lemma distinct_emails_add s new :
  by_email (User.email new) s = None →
  toLowerCase (User.email new) = User.email new →
  distinct_emails s →
  NoDup ((λ u, toLowerCase (User.email u)) <$> (User.users s ++ [new])).
Proof.
  intros Hnone Hlow Hd. rewrite fmap_app. apply NoDup_app.
  split; [done|]. split; [|apply NoDup_singleton].
  intros m Hm ->%list_elem_of_singleton.
  apply list_elem_of_fmap in Hm as (u & Hu & Hin).
  apply list_find_None in Hnone.
  eapply Forall_forall in Hnone; [|exact Hin]. simpl in Hnone.
  destruct Hnone. by rewrite <- Hu.
Qed.

(** X21: [register] never throws.  It answers 400 and changes nothing when
    a field is missing or empty or the password has fewer than 6
    characters, and 409 and changes nothing when a user has the email,
    letter case apart; it answers 201 only after it appended a user with
    the lowercased email and the hash, not the password, as the stored
    password.  Whatever it answers, if no two users had the same email
    before, no two have after. *)
Theorem register_answers clock io body s :
  ∃ r s',
    register bcrypt_hash clock io body s = (s', Ok r)
    ∧ (status r = 400 ∨ status r = 409 → s' = s)
    ∧ (∀ password, Body.password body = Some password →
         Z.of_nat (String.length password) < 6 → status r = 400)
    ∧ (∀ email k u, Body.email body = Some email →
         by_email email s = Some (k, u) → status r = 400 ∨ status r = 409)
    ∧ (status r = 201 →
       ∃ name email password hashed,
         body = {| Body.name := Some name; Body.email := Some email;
                   Body.password := Some password |}
         ∧ bcrypt_hash password 12 = Ok hashed
         ∧ by_email email s = None
         ∧ User.users s'
           = User.users s ++
             [fresh (User.nextId s) clock
                {| User.Data.name := name; User.Data.email := email;
                   User.Data.password := hashed |}]
         ∧ user r = Some (User.withoutPassword
             (fresh (User.nextId s) clock
                {| User.Data.name := name; User.Data.email := email;
                   User.Data.password := hashed |})))
    ∧ (distinct_emails s → distinct_emails s').
Proof.
  destruct (missing (Body.name body) || missing (Body.email body)
            || missing (Body.password body)) eqn:Hm.
  { exists (failure 400 "All fields are required"), s.
    split; [by apply register_incomplete|].
    split; [done|]. split; [done|]. split; [by left|]. split; [done|done]. }
  destruct body as [[n|] [e|] [p|]]; simpl in Hm; try done;
    try (by rewrite ?orb_true_r in Hm).
  pose proof (register_run clock io n e p s Hm) as Hrun.
  destruct (Z.ltb_spec (Z.of_nat (String.length p)) 6).
  { eexists _, _. split; [exact Hrun|]. repeat split; settle. }
  destruct (by_email e s) as [[k u]|] eqn:He.
  { eexists _, _. split; [exact Hrun|]. repeat split; settle. }
  destruct (bcrypt_hash p 12) as [h|] eqn:Hh.
  2: { eexists _, _. split; [exact Hrun|]. repeat split; settle. }
  cbv zeta in Hrun.
  assert (Hkeep : distinct_emails s →
    NoDup ((λ u, toLowerCase (User.email u)) <$>
           (User.users s ++ [fresh (User.nextId s) clock
              {| User.Data.name := n; User.Data.email := e;
                 User.Data.password := h |}]))).
  { apply distinct_emails_add; simpl.
    - unfold by_email in *. simpl.
      erewrite list_find_ext; [exact He|]. intros u. simpl.
      by rewrite toLowerCase_twice.
    - apply toLowerCase_twice. }
  destruct io.
  - eexists _, _. split; [exact Hrun|].
    split; [simpl; by intros [|]|]. split; [settle|]. split; [settle|].
    split; [|exact Hkeep]. intros _. by exists n, e, p, h.
  - eexists _, _. split; [exact Hrun|].
    split; [simpl; by intros [|]|]. split; [settle|]. split; [settle|].
    split; [done|exact Hkeep].
Qed.


(** X23: after a registration answered 201, a login with the same email
    and password is answered 200 with the same user and the token signed
    for it, provided the library accepts the password against the hash it
    made. *)
Theorem register_then_login clock name email password hashed token s :
  missing (Some name) || missing (Some email) || missing (Some password) = false →
  6 ≤ Z.of_nat (String.length password) →
  by_email email s = None →
  bcrypt_hash password 12 = Ok hashed →
  bcrypt_compare password hashed = Ok true →
  let body := {| Body.name := Some name; Body.email := Some email;
                 Body.password := Some password |} in
  let new := fresh (User.nextId s) clock
               {| User.Data.name := name; User.Data.email := email;
                  User.Data.password := hashed |} in
  Auth.generateToken env_JWT_SECRET jwt_sign new = Ok token →
  ∃ s1 r,
    register bcrypt_hash clock true body s = (s1, Ok r)
    ∧ status r = 201
    ∧ user r = Some (User.withoutPassword new)
    ∧ login env_JWT_SECRET jwt_sign bcrypt_compare body s1
      = (s1, Ok (logged_in new token)).
Proof.
  intros Hm Hlen Hnone Hh Hc body new Ht. subst body.
  rewrite (register_run clock true) by done.
  destruct (Z.ltb_spec (Z.of_nat (String.length password)) 6); [lia|].
  rewrite Hnone, Hh. cbv zeta. fold new. eexists _, _. split; [done|].
  split; [done|]. split; [done|].
  apply orb_false_iff in Hm as [[_ He]%orb_false_iff Hp].
  assert (∃ c e, email = String c e) as (c & e & Heq)
    by (destruct email; [done | by eexists _, _]).
  assert (∃ d p, password = String d p) as (d & p & Hpeq)
    by (destruct password; [done | by eexists _, _]).
  rewrite (login_run email password e p c d _ _ Heq Hpeq).
  unfold by_email. cbn [User.users User.set_dataFile User.set_users].
  rewrite list_find_app_r by exact Hnone.
  cbn [list_find]. rewrite decide_True by (simpl; by rewrite toLowerCase_twice).
  cbn [fmap option_fmap option_map prod_map fst snd].
  unfold id. change (User.password new) with hashed. by rewrite Hc, Ht.
Qed.

End AuthRouteFacts.

(** ** The event routes *)

Section EventRouteFacts.

Import EventRoutes HttpSpec EventSpec EventMore.
Local Open Scope Z_scope.

Lemma Event_findById_run id s :
  Event_findById id s
  = (s, Ok match parseInt id with
           | Num i => fst <$> target i s
           | _ => None
           end).
Proof.
  unfold Event_findById.
  destruct (parseInt id); rewrite ?findById_run, ?logged_run; done.
Qed.

Lemma getEventById_run id s :
  getEventById id s
  = (s, Ok match parseInt id with
           | Num i =>
               match event_with i s with
               | Some e => found_event e
               | None => failure 404 "Event not found"
               end
           | _ => failure 404 "Event not found"
           end).
Proof.
  unfold getEventById, try_catch. unfold bind at 1. rewrite Event_findById_run.
  unfold event_with.
  destruct (parseInt id) as [i| | |]; try done.
  destruct (target i s) as [[k e]|] eqn:Ht; simpl; [|done].
  pose proof Ht as [Hk _]%list_find_slot.
  unfold bind at 1. by rewrite (deref_run _ _ _ Hk).
Qed.

(** X24: no request reaches the search route.  Every [GET] of a path of
    one segment that is not empty goes to the route [/:id], which stands before [/search] in
    the router and takes the segment for an id; so [GET /search] is
    answered 404 "Event not found", whatever the store holds, although the
    pattern of the search route fits the path. *)
Theorem search_route_shadowed :
  (∀ m path r params, dispatch m path = Some (r, params) → r ≠ SearchEvents)
  ∧ (∀ part, part ≠ "" → dispatch GET [part] = Some (GetEventById, [("id", part)]))
  ∧ fits [Literal "search"] ["search"] = Some []
  ∧ (∀ s, getEventById "search" s = (s, Ok (failure 404 "Event not found"))).
Proof.
  split; [|split; [|split; [done|]]].
  - intros m path r params. unfold dispatch, routes.
    destruct m; destruct path as [|[|c p] [|[|d q] [|x rest]]]; simpl;
      repeat match goal with
             | |- context [if ?b then _ else _] => destruct b; simpl
             end;
      by intros [= <- _].
  - by intros [|c part].
  - intros s. by rewrite getEventById_run.
Qed.

(** X25: [GET /api/events/:id] never changes the store and never answers
    500: it answers 200 with the first event whose id is the integer that
    [parseInt] reads at the head of the parameter, and 404 when there is no
    such event or the parameter does not start with an integer. *)
Theorem getEventById_answers id s :
  ∃ r,
    getEventById id s = (s, Ok r)
    ∧ (∀ i e, parseInt id = Num i → event_with i s = Some e → r = found_event e)
    ∧ (∀ i, parseInt id = Num i → event_with i s = None →
            r = failure 404 "Event not found")
    ∧ (parseInt id = NaN → r = failure 404 "Event not found")
    ∧ (status r = 200 ∨ status r = 404).
Proof.
  eexists. split; [apply getEventById_run|].
  destruct (parseInt id) as [i| | |]; repeat split; try done; try (by right).
  - intros ? ? [= <-] ->. done.
  - intros ? [= <-] ->. done.
  - destruct (event_with i s); [by left | by right].
Qed.

Variable env_JWT_SECRET : option string.
Variable jwt_verify : string → string → Auth.verdict.

Lemma deleteEvent_run io authorization id s :
  deleteEvent env_JWT_SECRET jwt_verify io authorization id s
  = match Auth.authenticateToken env_JWT_SECRET jwt_verify authorization with
    | Auth.Status code message => (s, Ok (failure code message))
    | Auth.Next user =>
        match parseInt id with
        | Num i =>
            match target i s with
            | None => (s, Ok (failure 404 "Event not found"))
            | Some (k, e) =>
                if Event.organizerId e =? Auth.id user then
                  let s' := Event.set_events (base.delete k (Event.events s)) s in
                  if io then
                    (Event.set_dataFile (Event.stringify (Event.events s')) s',
                     Ok {| status := 200; success := true;
                           message := Some "Event deleted successfully";
                           event := None; events := None;
                           category := None; query := None; total := None |})
                  else (s', Ok (failure 500 "Failed to delete event"))
                else
                  (s, Ok (failure 403 "Only the event organizer can delete this event"))
            end
        | _ => (s, Ok (failure 404 "Event not found"))
        end
    end.
Proof.
  unfold deleteEvent, authenticated.
  destruct (Auth.authenticateToken _ _ _) as [user|code message]; [|done].
  unfold try_catch. unfold bind at 1. rewrite Event_findById_run.
  unfold Event_delete.
  destruct (parseInt id) as [i| | |]; try done.
  destruct (target i s) as [[k e]|] eqn:Ht; simpl; [|done].
  pose proof Ht as [Hk _]%list_find_slot.
  unfold bind at 1. rewrite (deref_run _ _ _ Hk).
  destruct (Event.organizerId e =? Auth.id user); simpl; [|done].
  unfold bind at 1. rewrite delete_run, Ht. unfold commit. by destruct io.
Qed.

Lemma updateEvent_run clock io authorization id body s :
  updateEvent env_JWT_SECRET jwt_verify clock io authorization id body s
  = match Auth.authenticateToken env_JWT_SECRET jwt_verify authorization with
    | Auth.Status code message => (s, Ok (failure code message))
    | Auth.Next user =>
        match parseInt id with
        | Num i =>
            match target i s with
            | None => (s, Ok (failure 404 "Event not found"))
            | Some (k, e) =>
                if Event.organizerId e =? Auth.id user then
                  let e' := Event.merge e body (toISOString (clock 0%nat)) in
                  let s' := Event.set_events (<[k:=e']> (Event.events s)) s in
                  if io then
                    (Event.set_dataFile (Event.stringify (Event.events s')) s',
                     Ok {| status := 200; success := true;
                           message := Some "Event updated successfully";
                           event := Some e'; events := None;
                           category := None; query := None; total := None |})
                  else (s', Ok (failure 500 "Failed to update event"))
                else
                  (s, Ok (failure 403 "Only the event organizer can update this event"))
            end
        | _ => (s, Ok (failure 404 "Event not found"))
        end
    end.
Proof.
  unfold updateEvent, authenticated.
  destruct (Auth.authenticateToken _ _ _) as [user|code message]; [|done].
  unfold try_catch. unfold bind at 1. rewrite Event_findById_run.
  unfold Event_update.
  destruct (parseInt id) as [i| | |]; try done.
  destruct (target i s) as [[k e]|] eqn:Ht; simpl; [|done].
  pose proof Ht as [Hk _]%list_find_slot.
  unfold bind at 1. rewrite (deref_run _ _ _ Hk).
  destruct (Event.organizerId e =? Auth.id user); simpl; [|done].
  unfold bind at 1. rewrite update_run, Ht. unfold commit. by destruct io.
Qed.

(** X26: the routes [PUT /:id] and [DELETE /:id] change the store, or
    answer 200, only for a request whose token verifies and whose user is
    the organizer of the event; any other request is answered 401, 403 or
    404 and leaves the store as it was. *)
Theorem organizer_only clock io authorization id body s :
  (∃ r, deleteEvent env_JWT_SECRET jwt_verify io authorization id s
        = ((deleteEvent env_JWT_SECRET jwt_verify io authorization id s).1, Ok r)
        ∧ (from_organizer env_JWT_SECRET jwt_verify authorization id s
           ∨ (deleteEvent env_JWT_SECRET jwt_verify io authorization id s).1 = s
             ∧ (status r = 401 ∨ status r = 403 ∨ status r = 404)))
  ∧ (∃ r, updateEvent env_JWT_SECRET jwt_verify clock io authorization id body s
          = ((updateEvent env_JWT_SECRET jwt_verify clock io authorization id body s).1, Ok r)
          ∧ (from_organizer env_JWT_SECRET jwt_verify authorization id s
             ∨ (updateEvent env_JWT_SECRET jwt_verify clock io authorization id body s).1 = s
               ∧ (status r = 401 ∨ status r = 403 ∨ status r = 404))).
Proof.
  rewrite deleteEvent_run, updateEvent_run. unfold from_organizer.
  pose proof (authenticateToken_refuses env_JWT_SECRET jwt_verify authorization)
    as H401.
  destruct (Auth.authenticateToken _ _ _) as [user|code message].
  2: { rewrite (H401 code message eq_refl).
       split; eexists; (split; [done|]); right; split; try done; by left. }
  destruct (parseInt id) as [i| | |];
    try (split; eexists; (split; [done|]); right; split; try done; by do 2 right).
  destruct (target i s) as [[k e]|] eqn:Ht;
    [|split; eexists; (split; [done|]); right; split; try done; by do 2 right].
  destruct (Z.eqb_spec (Event.organizerId e) (Auth.id user)) as [Ho|Ho].
  - split; destruct io; eexists; (split; [done|]); left; by exists user, i, k, e.
  - split; eexists; (split; [done|]); right; split; try done; right; by left.
Qed.

End EventRouteFacts.

(** ** Events of an organizer, and the category route *)

Section OrganizerFacts.

Import Event EventSpec EventLife EventQueries EventMore.
Local Open Scope Z_scope.

(** X27: [getEventsByOrganizer] returns, in the order of the store and
    without changing it, the events of the organizer; after a [create]
    call, whether its write to disk succeeded or not, the new event comes
    last in the list of its organizer, and the list of any other organizer
    is what it was. *)
Theorem organizer_sees_created clock io eventData organizer s :
  ∃ before,
    getEventsByOrganizer organizer s = (s, Ok before)
    ∧ (∀ e, e ∈ before ↔ e ∈ events s ∧ organizerId e = organizer)
    ∧ getEventsByOrganizer organizer (create clock io eventData s).1
      = ((create clock io eventData s).1,
         Ok (if decide (Data.organizerId eventData = organizer)
             then before ++ [fresh (nextId s) clock eventData]
             else before)).
Proof.
  eexists. split; [unfold getEventsByOrganizer; rewrite logged_run; reflexivity|].
  split.
  - intros e. rewrite list_elem_of_In, List.filter_In, <- list_elem_of_In.
    by rewrite Z.eqb_eq.
  - unfold getEventsByOrganizer. rewrite logged_run. unfold bind, get, ret.
    f_equal. f_equal.
    assert (Hev : events (create clock io eventData s).1
                  = events s ++ [fresh (nextId s) clock eventData]).
    { rewrite create_run. unfold commit. by destruct io. }
    rewrite Hev, List.filter_app. simpl.
    destruct (decide _) as [->|Hne].
    + by rewrite Z.eqb_refl.
    + apply Z.eqb_neq in Hne. by rewrite Hne, app_nil_r.
Qed.

End OrganizerFacts.

Section CategoryRouteFacts.

Import EventRoutes HttpSpec EventSpec EventMore.
Local Open Scope Z_scope.

(** X28: a [GET] of [/category/<name>], the word [category] in any letter
    case and the name not empty, reaches the category route, not [/:id];
    the route never changes the store and always answers 200, with the
    events of that category, letter case apart, and no others. *)
Theorem category_route_answers word name s :
  toLowerCase word = "category" → name ≠ "" →
  dispatch GET [word; name] = Some (GetEventsByCategory, [("category", name)])
  ∧ ∃ found,
      getEventsByCategory name s
      = (s, Ok {| status := 200; success := true; message := None;
                  event := None; events := Some found;
                  category := Some name; query := None;
                  total := Some (Z.of_nat (length found)) |})
      ∧ ∀ e, e ∈ found ↔
             e ∈ Event.events s
             ∧ toLowerCase (Event.category e) = toLowerCase name.
Proof.
  intros Hword Hname. split.
  - unfold dispatch, routes. cbn [dispatch_in same_method].
    destruct word as [|c word]; [done|].
    destruct name as [|d name]; [done|].
    cbn [fits]. simpl mbind. cbn [fits].
    change (toLowerCase "category") with "category".
    rewrite Hword. simpl. done.
  - eexists. split.
    + unfold getEventsByCategory, try_catch, Event.findByCategory.
      unfold bind at 1. rewrite logged_run. reflexivity.
    + intros e. rewrite list_elem_of_In, List.filter_In, <- list_elem_of_In.
      by rewrite String.eqb_eq.
Qed.

End CategoryRouteFacts.

(** ** The statistics of a user *)

Section UserStatsFacts.

Import User UserSpec UserMore.
Local Open Scope Z_scope.

(** X29: for an existing user, [getUserStats] after an
    [addRegisteredEvent] call, whether its write to disk succeeded or not,
    counts one event more than the user had when the event was not in the
    list, and the same number when it was; after a [removeRegisteredEvent]
    call it counts the entries that are not the event; [memberSince] is
    what it was in both cases. *)
Theorem stats_follow_registrations clock io userId eventId s k u :
  target userId s = Some (k, u) →
  (∃ st, getUserStats userId (addRegisteredEvent clock io userId eventId s).1
         = ((addRegisteredEvent clock io userId eventId s).1, Ok st)
         ∧ totalEvents st
           = Z.of_nat (length (registeredEvents u))
             + (if decide (eventId ∈ registeredEvents u) then 0 else 1)
         ∧ memberSince st = createdAt u)
  ∧ (∃ st, getUserStats userId (removeRegisteredEvent clock io userId eventId s).1
           = ((removeRegisteredEvent clock io userId eventId s).1, Ok st)
           ∧ totalEvents st
             = Z.of_nat (length (filter (λ id, id ≠ eventId) (registeredEvents u)))
           ∧ memberSince st = createdAt u).
Proof.
  intros Ht. pose proof (proj1 (list_find_Some _ _ _ _) Ht) as (_ & Hid & _).
  split.
  - rewrite addRegisteredEvent_run, Ht.
    destruct (Array_includes (registeredEvents u) eventId) eqn:Hin.
    + apply Array_includes_spec in Hin. rewrite decide_True by done.
      cbn [fst]. rewrite getUserStats_run, Ht. eexists. split; [done|]. simpl. split; [lia|done].
    + assert (eventId ∉ registeredEvents u) as Hnot.
      { intros Hx. apply Array_includes_spec in Hx. congruence. }
      rewrite decide_False by done. cbv zeta.
      rewrite getUserStats_run, user_target_commit.
      erewrite user_target_rewrite; [| exact Ht | exact Hid].
      eexists. split; [done|]. simpl. rewrite length_app. simpl. split; [lia|done].
  - rewrite removeRegisteredEvent_run, Ht. cbv zeta.
    rewrite getUserStats_run, user_target_commit.
    erewrite user_target_rewrite; [| exact Ht | exact Hid].
    eexists. split; [done|]. simpl. by rewrite user_filter_others.
Qed.

End UserStatsFacts.

(** ** Instances *)

Section EventInstances.

Import Event EventSpec EventLife EventQueries EventMore Samples.
Local Open Scope Z_scope.

Lemma findByCategory_matches_witness :
  ∃ found,
    findByCategory "MUSIC" one_seat = (one_seat, Ok found)
    ∧ jazz (Num 1) 0 [] "2026-11-02T12:34:56.790Z" ∈ found.
Proof.
  destruct (findByCategory_matches "MUSIC" one_seat) as (found & Hrun & Hin & _).
  exists found. split; [exact Hrun|].
  apply Hin. split; [simpl; left | reflexivity].
Defined.

Lemma getUpcomingEvents_earliest_witness :
  ∃ found later,
    getUpcomingEvents Listings.utc clk (Some 1)
      (Listings.listing [Listings.in_2099; Listings.in_2020])
    = (Listings.listing [Listings.in_2099; Listings.in_2020], Ok found)
    ∧ Listings.in_2099 ∈ found ++ later
    ∧ (Listings.in_2020 ∉ found ++ later)
    ∧ length found = Nat.min 1 (length (found ++ later)).
Proof.
  destruct (getUpcomingEvents_earliest Listings.utc clk (Some 1)
              (Listings.listing [Listings.in_2099; Listings.in_2020]))
    as (found & later & Hrun & Hin & _ & _ & Hlen).
  exists found, later. split; [exact Hrun|]. split; [|split].
  - apply Hin. split; [simpl; left|].
    exists local_2099. split; [vm_compute; reflexivity | unfold clk, local_2099; lia].
  - intros [_ (t & Ht & Hlt)]%Hin.
    vm_compute in Ht. injection Ht as <-. unfold clk in Hlt. lia.
  - apply Hlen. simpl. lia.
Defined.

Lemma getPopularEvents_top_witness :
  ∃ sorted found,
    getPopularEvents (Some 1) sold_out = (set_events sorted sold_out, Ok found)
    ∧ sorted ≡ₚ events sold_out
    ∧ found = take 1 sorted.
Proof.
  destruct (getPopularEvents_top (Some 1) sold_out)
    as (sorted & found & Hrun & Hperm & _ & Htake).
  exists sorted, found. split; [exact Hrun|]. split; [exact Hperm|].
  apply Htake. simpl. lia.
Defined.

Lemma getEventStats_counts_witness :
  ∃ st,
    getEventStats Listings.utc clk sold_out = (sold_out, Ok st)
    ∧ categoryStats st !! "Music" = Some (Count 1)
    ∧ categoryStats st !! "Sports" = None
    ∧ totalRegistrations st = 1.
Proof.
  destruct (getEventStats_counts Listings.utc clk sold_out)
    as (st & Hrun & _ & _ & _ & _ & Hcat & Htotal).
  exists st. split; [exact Hrun|]. split; [|split].
  - rewrite (Hcat "Music" eq_refl). vm_compute. reflexivity.
  - rewrite (Hcat "Sports" eq_refl). vm_compute. reflexivity.
  - rewrite Htotal; [vm_compute; reflexivity|].
    repeat constructor.
Defined.

Lemma cleanupPastEvents_counts_witness :
  ∃ pasts st,
    cleanupPastEvents Listings.utc Requests.frozen
      (Listings.listing [Listings.in_2099; Listings.undated; Listings.in_2020])
    = (Listings.listing [Listings.in_2099; Listings.undated; Listings.in_2020],
       Ok (Z.of_nat (length pasts)))
    ∧ Listings.in_2020 ∈ pasts
    ∧ getEventStats Listings.utc Requests.frozen
        (Listings.listing [Listings.in_2099; Listings.undated; Listings.in_2020])
      = (Listings.listing [Listings.in_2099; Listings.undated; Listings.in_2020], Ok st)
    ∧ pastEvents st = Z.of_nat (length pasts) + 1.
Proof.
  destruct (cleanupPastEvents_counts Listings.utc Requests.frozen
              (Listings.listing [Listings.in_2099; Listings.undated; Listings.in_2020]))
    as (pasts & Hrun & Hin & Hstats).
  destruct (Hstats (λ n, eq_refl)) as (st & Hst & Hpast).
  exists pasts, st. split; [exact Hrun|]. split; [|split; [exact Hst|]].
  - apply Hin. split; [simpl; right; right; left|].
    exists local_2020. split; [vm_compute; reflexivity|].
    unfold Requests.frozen, local_2020. lia.
  - rewrite Hpast. vm_compute. reflexivity.
Defined.



Lemma reorder_keeps_lookups_witness :
  event_with 1 (findAll Listings.utc clk
                  (Listings.listing [Listings.in_2099; Listings.in_2020])).1
  = Some Listings.in_2099
  ∧ events (findAll Listings.utc clk
              (Listings.listing [Listings.in_2099; Listings.in_2020])).1
    = [Listings.in_2020; Listings.in_2099].
Proof.
  destruct (reorder_keeps_lookups Listings.utc clk None
              (Listings.listing [Listings.in_2099; Listings.in_2020]))
    as (Hall & _).
  { simpl. apply NoDup_cons. split; [|apply NoDup_singleton].
    intros Hin. apply list_elem_of_singleton in Hin. discriminate. }
  split; [rewrite Hall; reflexivity|].
  vm_compute. reflexivity.
Defined.

Lemma delete_then_find_witness :
  event_with 1 (delete false 1 one_seat).1 = None
  ∧ length (events (delete false 1 one_seat).1) = 0%nat.
Proof.
  destruct (delete_then_find false 1 one_seat 0
              (jazz (Num 1) 0 [] "2026-11-02T12:34:56.790Z"))
    as (Hgone & _ & Hlen).
  { apply NoDup_singleton. }
  { reflexivity. }
  split; [exact Hgone | exact Hlen].
Defined.


Lemma update_in_place_witness :
  events (update clk false 1 Patch.empty one_seat).1 !! 0%nat
  = Some (jazz (Num 1) 0 [] "2026-11-02T12:34:56.789Z")
  ∧ events (update clk true 1 Patch.empty (update clk false 1 Patch.empty one_seat).1).1
    = events (update clk false 1 Patch.empty one_seat).1.
Proof.
  destruct (update_in_place clk false true 1 Patch.empty one_seat 0
              (jazz (Num 1) 0 [] "2026-11-02T12:34:56.790Z") eq_refl)
    as (Hslot & _ & _ & Hagain).
  split; [exact Hslot|]. apply Hagain. reflexivity.
Defined.


End EventInstances.

Section UserInstances.

Import User UserSpec UserMore Members.
Local Open Scope Z_scope.

Lemma user_failures_are_atomic_witness :
  (delete true 9 members).1 = members
  ∧ (getUserStats 9 members).1 = members
  ∧ changePassword Requests.hash Samples.clk true 1 "" members
    = (members, Throw (Error "Illegal arguments")).
Proof.
  destruct (user_failures_are_atomic Requests.hash Samples.clk true 9 3
              Requests.no_change "" members)
    as (_ & Hdel & _ & _ & Hstats & _ & _).
  destruct (user_failures_are_atomic Requests.hash Samples.clk true 1 3
              Requests.no_change "" members)
    as (_ & _ & _ & _ & _ & _ & Hhash).
  split; [|split].
  - apply (Hdel _ (Error "User not found")); vm_compute; reflexivity.
  - apply (Hstats _ (Error "User not found")); vm_compute; reflexivity.
  - apply Hhash. reflexivity.
Defined.

Lemma create_then_findByEmail_witness :
  by_email "bob@example.org" (create Samples.clk false Requests.bob_data members).1
  = Some (1%nat, fresh 2 Samples.clk Requests.bob_data)
  ∧ by_email "ANN@example.org"
      (create Samples.clk true
         {| Data.name := "Another Ann"; Data.email := "Ann@Example.org";
            Data.password := "hash" |} members).1
    = Some (0%nat, ann).
Proof.
  destruct (create_then_findByEmail Samples.clk false Requests.bob_data
              "bob@example.org" members eq_refl)
    as (Hnew & _).
  destruct (create_then_findByEmail Samples.clk true
              {| Data.name := "Another Ann"; Data.email := "Ann@Example.org";
                 Data.password := "hash" |} "ANN@example.org" members eq_refl)
    as (_ & Hold & _).
  split.
  - apply Hnew. reflexivity.
  - apply Hold. reflexivity.
Defined.

Lemma removeRegisteredEvent_effect_witness :
  (∃ u', target 1 (removeRegisteredEvent Samples.clk true 1 3 members).1 = Some (0%nat, u')
         ∧ registeredEvents u' = [])
  ∧ (removeRegisteredEvent Samples.clk true 1 4 members).2 = Ok true
  ∧ (∃ u', target 1
             (removeRegisteredEvent Samples.clk true 1 4
                (addRegisteredEvent Samples.clk true 1 4 members).1).1 = Some (0%nat, u')
           ∧ registeredEvents u' = [3]).
Proof.
  destruct (removeRegisteredEvent_effect Samples.clk true Samples.clk true 1 3
              members 0 ann eq_refl)
    as ((u' & Ht & Hlist & _) & _ & _).
  destruct (removeRegisteredEvent_effect Samples.clk true Samples.clk true 1 4
              members 0 ann eq_refl)
    as (_ & Hret & Hback).
  split; [|split].
  - exists u'. split; [exact Ht|]. rewrite Hlist. vm_compute. reflexivity.
  - exact Hret.
  - apply Hback. simpl. intros Hin. apply list_elem_of_singleton in Hin. discriminate.
Defined.

Lemma changePassword_then_validate_witness :
  validatePassword compare 1 "new secret"
    (changePassword Requests.hash Samples.clk false 1 "new secret" members).1
  = ((changePassword Requests.hash Samples.clk false 1 "new secret" members).1, Ok true)
  ∧ validatePassword compare 1 "secret"
      (changePassword Requests.hash Samples.clk false 1 "new secret" members).1
    = ((changePassword Requests.hash Samples.clk false 1 "new secret" members).1, Ok false).
Proof.
  split.
  - apply (changePassword_then_validate Requests.hash compare Samples.clk false 1
             "new secret" "hash of new secret" "new secret" true members 0 ann);
      reflexivity.
  - apply (changePassword_then_validate Requests.hash compare Samples.clk false 1
             "new secret" "hash of new secret" "secret" false members 0 ann);
      reflexivity.
Defined.

Lemma searchUsers_matches_witness :
  (∃ found, searchUsers "EXAMPLE" members = (members, Ok found)
            ∧ withoutPassword ann ∈ found)
  ∧ (∃ found, searchUsers "" members = (members, Ok found)
              ∧ getAllUsers members = (members, Ok found)).
Proof.
  destruct (searchUsers_matches "EXAMPLE" members) as (found & Hrun & Hin & _).
  destruct (searchUsers_matches "" members) as (every & Hevery & _ & Hall).
  split.
  - exists found. split; [exact Hrun|].
    apply Hin. exists ann. split; [simpl; left|]. split; [reflexivity|].
    right. exists "ann@", ".org". reflexivity.
  - exists every. split; [exact Hevery | exact (Hall eq_refl)].
Defined.

End UserInstances.

Section AuthInstances.

Import Auth HttpSpec Requests.
Local Open Scope Z_scope.

Lemma authenticateToken_decides_witness :
  authenticateToken None verify (Some "Bearer token-ann@example.org") = Next ann
  ∧ authenticateToken None verify (Some "Basic token-ann@example.org") = Next ann
  ∧ authenticateToken None verify (Some "Bearer") = Status 401 "Access token required".
Proof.
  destruct (authenticateToken_decides None verify (Some "Bearer token-ann@example.org"))
    as (Hnext & _).
  destruct (authenticateToken_decides None verify (Some "Basic token-ann@example.org"))
    as (_ & _ & _ & Hscheme).
  destruct (authenticateToken_decides None verify (Some "Bearer"))
    as (_ & _ & Hnone & _).
  assert (Hann : authenticateToken None verify (Some "Bearer token-ann@example.org")
                 = Next ann).
  { apply Hnext. exists "token-ann@example.org".
    split; [reflexivity|]. split; [discriminate | reflexivity]. }
  split; [exact Hann|]. split.
  - rewrite (Hscheme "Basic" "token-ann@example.org" eq_refl eq_refl eq_refl).
    exact Hann.
  - apply Hnone. reflexivity.
Defined.

Lemma optionalAuth_agrees_witness :
  optionalAuth None verify (Some "Bearer token-bob@example.org") = User bob
  ∧ optionalAuth None verify None = Untouched
  ∧ optionalAuth None verify (Some "Bearer old") = NullUser.
Proof.
  destruct (optionalAuth_agrees None verify (Some "Bearer token-bob@example.org"))
    as (Huser & _).
  destruct (optionalAuth_agrees None verify None) as (_ & Hnone & _).
  destruct (optionalAuth_agrees None verify (Some "Bearer old")) as (_ & _ & Hnull).
  split; [|split].
  - apply Huser. reflexivity.
  - apply Hnone. reflexivity.
  - apply Hnull. exists "Token expired". split; [reflexivity | discriminate].
Defined.

End AuthInstances.

Section AuthRouteInstances.

Import AuthRoutes HttpSpec UserSpec UserMore Requests.
Local Open Scope Z_scope.

Lemma login_answers_witness :
  login None sign Members.compare (form "" "ANN@example.org" "secret") Members.members
  = (Members.members, Ok (logged_in Members.ann "token-ann@example.org"))
  ∧ ∃ r, login None sign Members.compare (form "" "ann@example.org" "guess")
           Members.members = (Members.members, Ok r)
         ∧ r = failure 401 "Invalid email or password".
Proof.
  destruct (login_answers None sign Members.compare
              (form "" "ANN@example.org" "secret") Members.members)
    as (r & Hrun & _ & _ & Hfound).
  destruct (login_answers None sign Members.compare
              (form "" "ann@example.org" "guess") Members.members)
    as (r' & Hrun' & _ & H401 & Hwrong).
  split.
  - rewrite Hrun. do 2 f_equal.
    apply (Hfound "ANN@example.org" "secret" eq_refl eq_refl eq_refl);
      reflexivity.
  - exists r'. split; [exact Hrun'|]. apply H401.
    apply (Hwrong "ann@example.org" "guess" eq_refl eq_refl eq_refl).
    reflexivity.
Defined.

Lemma register_answers_witness :
  ∃ r,
    register hash Samples.clk true (form "Bob" "bob@example.org" "12345")
      Members.members = (Members.members, Ok r)
    ∧ status r = 400.
Proof.
  destruct (register_answers hash Samples.clk true
              (form "Bob" "bob@example.org" "12345") Members.members)
    as (r & s' & Hrun & Hsame & Hshort & _).
  assert (H400 : status r = 400).
  { apply (Hshort "12345" eq_refl). simpl. lia. }
  exists r. split; [|exact H400].
  rewrite Hrun. rewrite (Hsame (or_introl H400)). reflexivity.
Defined.


Lemma register_then_login_witness :
  ∃ s1 r,
    register hash Samples.clk true (form "Bob" "Bob@Example.org" "hunter22")
      Members.members = (s1, Ok r)
    ∧ status r = 201
    ∧ user r = Some (User.withoutPassword (fresh 2 Samples.clk bob_data))
    ∧ login None sign Members.compare (form "Bob" "Bob@Example.org" "hunter22") s1
      = (s1, Ok (logged_in (fresh 2 Samples.clk bob_data) "token-bob@example.org")).
Proof.
  apply (register_then_login None sign hash Members.compare Samples.clk
           "Bob" "Bob@Example.org" "hunter22" "hash of hunter22"
           "token-bob@example.org" Members.members);
    [reflexivity | simpl; lia | reflexivity | reflexivity | reflexivity | reflexivity].
Defined.

End AuthRouteInstances.

Section EventRouteInstances.

Import EventRoutes HttpSpec EventSpec EventMore Requests Samples.
Local Open Scope Z_scope.

Lemma search_route_shadowed_witness :
  dispatch GET ["search"] = Some (GetEventById, [("id", "search")])
  ∧ dispatch GET ["search"] ≠ Some (SearchEvents, [])
  ∧ getEventById "search" one_seat = (one_seat, Ok (failure 404 "Event not found")).
Proof.
  destruct search_route_shadowed as (Hnever & Hid & _ & Hanswer).
  split; [|split].
  - apply Hid. discriminate.
  - intros Hsearch. apply (Hnever GET ["search"] SearchEvents [] Hsearch). reflexivity.
  - apply Hanswer.
Defined.

Lemma getEventById_answers_witness :
  getEventById "1st" one_seat
  = (one_seat, Ok (found_event (jazz (Num 1) 0 [] "2026-11-02T12:34:56.790Z")))
  ∧ getEventById "first" one_seat = (one_seat, Ok (failure 404 "Event not found")).
Proof.
  destruct (getEventById_answers "1st" one_seat) as (r & Hrun & Hfound & _).
  destruct (getEventById_answers "first" one_seat) as (r' & Hrun' & _ & _ & Hnan & _).
  split.
  - rewrite Hrun. do 2 f_equal. apply (Hfound 1); reflexivity.
  - rewrite Hrun'. do 2 f_equal. apply Hnan. reflexivity.
Defined.

Lemma organizer_only_witness :
  (deleteEvent None verify true (Some "Bearer token-bob@example.org") "1" one_seat).1
  = one_seat
  ∧ (updateEvent None verify clk true (Some "Bearer token-bob@example.org") "1"
       Event.Patch.empty one_seat).1 = one_seat.
Proof.
  assert (Hbob : ¬ from_organizer None verify (Some "Bearer token-bob@example.org")
                     "1" one_seat).
  { intros (user & i & k & e & Hauth & Hparse & Ht & Ho).
    vm_compute in Hauth. injection Hauth as <-.
    vm_compute in Hparse. injection Hparse as <-.
    vm_compute in Ht. injection Ht as <- <-.
    vm_compute in Ho. discriminate. }
  destruct (organizer_only None verify clk true (Some "Bearer token-bob@example.org")
              "1" Event.Patch.empty one_seat)
    as ((r & _ & [Horg|[Hsame _]]) & (r' & _ & [Horg'|[Hsame' _]])); try done.
Defined.

End EventRouteInstances.

Section OrganizerInstances.

Import Event EventSpec EventLife EventMore Samples.
Local Open Scope Z_scope.

Lemma organizer_sees_created_witness :
  getEventsByOrganizer 1 (create clk false (request "100" None) one_seat).1
  = ((create clk false (request "100" None) one_seat).1,
     Ok [jazz (Num 1) 0 [] "2026-11-02T12:34:56.790Z";
         fresh 2 clk (request "100" None)])
  ∧ getEventsByOrganizer 2 (create clk false (request "100" None) one_seat).1
    = ((create clk false (request "100" None) one_seat).1, Ok []).
Proof.
  destruct (organizer_sees_created clk false (request "100" None) 1 one_seat)
    as (mine & Hmine & _ & Hafter).
  destruct (organizer_sees_created clk false (request "100" None) 2 one_seat)
    as (theirs & Htheirs & _ & Hsame).
  injection Hmine as <-. injection Htheirs as <-.
  split; [exact Hafter | exact Hsame].
Defined.

Lemma category_route_answers_witness :
  EventRoutes.dispatch EventRoutes.GET ["Category"; "MUSIC"]
  = Some (EventRoutes.GetEventsByCategory, [("category", "MUSIC")])
  ∧ ∃ found,
      EventRoutes.getEventsByCategory "MUSIC" one_seat
      = (one_seat,
         Ok {| EventRoutes.status := 200; EventRoutes.success := true;
               EventRoutes.message := None; EventRoutes.event := None;
               EventRoutes.events := Some found;
               EventRoutes.category := Some "MUSIC"; EventRoutes.query := None;
               EventRoutes.total := Some (Z.of_nat (length found)) |})
      ∧ jazz (Num 1) 0 [] "2026-11-02T12:34:56.790Z" ∈ found.
Proof.
  destruct (category_route_answers "Category" "MUSIC" one_seat eq_refl)
    as (Hroute & found & Hrun & Hin).
  { discriminate. }
  split; [exact Hroute|]. exists found. split; [exact Hrun|].
  apply Hin. split; [simpl; left | reflexivity].
Defined.

End OrganizerInstances.

Section UserStatsInstances.

Import User UserSpec UserMore Members.
Local Open Scope Z_scope.

Lemma stats_follow_registrations_witness :
  (∃ st, getUserStats 1 (addRegisteredEvent Samples.clk false 1 4 members).1
         = ((addRegisteredEvent Samples.clk false 1 4 members).1, Ok st)
         ∧ totalEvents st = 2)
  ∧ (∃ st, getUserStats 1 (addRegisteredEvent Samples.clk true 1 3 members).1
           = ((addRegisteredEvent Samples.clk true 1 3 members).1, Ok st)
           ∧ totalEvents st = 1)
  ∧ (∃ st, getUserStats 1 (removeRegisteredEvent Samples.clk true 1 3 members).1
           = ((removeRegisteredEvent Samples.clk true 1 3 members).1, Ok st)
           ∧ totalEvents st = 0).
Proof.
  destruct (stats_follow_registrations Samples.clk false 1 4 members 0 ann eq_refl)
    as ((st1 & Hrun1 & Hcount1 & _) & _).
  destruct (stats_follow_registrations Samples.clk true 1 3 members 0 ann eq_refl)
    as ((st2 & Hrun2 & Hcount2 & _) & (st3 & Hrun3 & Hcount3 & _)).
  split; [|split].
  - exists st1. split; [exact Hrun1|]. rewrite Hcount1. vm_compute. reflexivity.
  - exists st2. split; [exact Hrun2|]. rewrite Hcount2. vm_compute. reflexivity.
  - exists st3. split; [exact Hrun3|]. rewrite Hcount3. vm_compute. reflexivity.
Defined.

End UserStatsInstances.
